(** * flags_usage: a shallow embedding of mod.ts

    [src/mod.ts] holds two revisions of the module one after the other:
    an earlier one (lines 1-158, whose [formatUsage] renders flags inline)
    and a later one (lines 160-342, built on [FlagInfo] records, with
    [parseFlags] and [processFlags]).  The later revision is embedded at
    top level; the earlier [formatUsage], [logUsage], [parseArgs] and
    [processArgs] live in module [Earlier].

    JavaScript objects used as dictionaries are association lists in
    [Object.keys] order; [js_get] is a property read, [js_set] a property
    write (an existing key keeps its position, a new key is appended).
    Strings are ASCII strings, so [String.length] is the JS [length]. *)

From Stdlib Require Import String Ascii List ZArith Bool Lia.
From Stdlib Require Import Numbers.DecimalString.
From Stdlib Require Import Sorting.Permutation Sorting.Sorted.
Import ListNotations.
Open Scope string_scope.

(** ** JavaScript values and dictionaries *)

(** The values a default may hold.  [VOther tag] is any other
    (non-null) object, array or function, [tag] being its [typeof]. *)
Inductive value :=
| VString (s : string)
| VNumber (n : Z)
| VBoolean (b : bool)
| VUndefined
| VNull
| VOther (tag : string).

Definition typeof (v : value) : string :=
  match v with
  | VString _ => "string"
  | VNumber _ => "number"
  | VBoolean _ => "boolean"
  | VUndefined => "undefined"
  | VNull => "object"
  | VOther tag => tag
  end.

Definition truthy (v : value) : bool :=
  match v with
  | VString s => negb (String.eqb s "")
  | VNumber n => negb (Z.eqb n 0)
  | VBoolean b => b
  | VUndefined | VNull => false
  | VOther _ => true
  end.

(** Truthiness of a [string | undefined]. *)
Definition truthy_str (s : option string) : bool :=
  match s with
  | Some s => negb (String.eqb s "")
  | None => false
  end.

Definition obj (A : Type) := list (string * A).

Fixpoint js_get {A} (k : string) (o : obj A) : option A :=
  match o with
  | [] => None
  | (k', v) :: r => if String.eqb k k' then Some v else js_get k r
  end.

Fixpoint js_set {A} (k : string) (v : A) (o : obj A) : obj A :=
  match o with
  | [] => [(k, v)]
  | (k', v') :: r =>
      if String.eqb k k' then (k', v) :: r else (k', v') :: js_set k v r
  end.

Definition keys {A} (o : obj A) : list string := map fst o.

(** [defaults[flag]] on a [Record<string, unknown>]: [undefined] if absent. *)
Definition js_get_value (k : string) (o : obj value) : value :=
  match js_get k o with Some v => v | None => VUndefined end.

(** ** [Set<string>]: insertion-ordered, without duplicates *)

Definition set_add (s : list string) (x : string) : list string :=
  if existsb (String.eqb x) s then s else s ++ [x].

Definition set_delete (x : string) (s : list string) : list string :=
  filter (fun y => negb (String.eqb x y)) s.

(** ** Options *)

(** [alias] values are [string | string[]]. *)
Inductive alias_value :=
| AliasOne (s : string)
| AliasMany (l : list string).

(** [boolean] and [string] options are [boolean | string | string[]]. *)
Inductive flag_names :=
| NamesUnset
| NamesFlag (b : bool)
| NamesOne (s : string)
| NamesMany (l : list string).

(** An [unknown] callback: a caller's function (its result for a token),
    or the wrapper closure that [processFlags] installs; the wrapper
    records the token and forwards to [options.unknown], [options] being
    the object at location [target] (see [call_unknown]). *)
Inductive callback :=
| UserFn (f : string -> value)
| Wrapper (target : nat).

(** [ArgProcessingOptions] (the fields of std/flags' [ArgParsingOptions]
    the module reads, plus [description] and [argument]).  [preamble] is
    not declared by the interface: it stands for any further property a
    caller's object may carry; [addHelpFlagIfNeeded] copies it through
    [...rest] and no function reads it. *)
Record options := mkOptions {
  alias : option (obj alias_value);
  description : option (obj string);
  argument : option (obj string);
  boolean : flag_names;
  string_ : flag_names;
  default : option (obj value);
  unknown : option callback;
  preamble : option string
}.

Definition empty_options : options :=
  mkOptions None None None NamesUnset NamesUnset None None None.

Definition set_unknown (o : options) (cb : callback) : options :=
  mkOptions (alias o) (description o) (argument o) (boolean o) (string_ o)
    (default o) (Some cb) (preamble o).

(** [options?.description?.help] is truthy *)
Definition help_declared (o : options) : bool :=
  match description o with
  | Some d => truthy_str (js_get "help" d)
  | None => false
  end.

(** [addHelpFlagIfNeeded] (identical in both revisions). *)
Definition addHelpFlagIfNeeded (o : options) : options :=
  if help_declared o then o
  else
    mkOptions
      (Some (js_set "help" (AliasMany ["h"; "?"])
               (match alias o with Some a => a | None => [] end)))
      (Some (js_set "help" "Display usage information"
               (match description o with Some d => d | None => [] end)))
      (argument o) (boolean o) (string_ o) (default o) (unknown o)
      (preamble o).

(** ** [convertToFlagInfos] (later revision, lines 198-267) *)

Module FlagInfo.
Record t := mk {
  flag : string;
  aliases : option (list string);
  type : option string;
  description : option string;
  argumentName : option string;
  default : value
}.
End FlagInfo.

(** [Array.isArray(value) ? value : [value]] *)
Definition alias_list (v : alias_value) : list string :=
  match v with AliasOne s => [s] | AliasMany l => l end.

(** [Array.isArray(o.boolean) ? o.boolean :
     ((typeof(o.boolean) === "string") ? [o.boolean] : [])] *)
Definition names_list (n : flag_names) : list string :=
  match n with
  | NamesMany l => l
  | NamesOne s => [s]
  | NamesFlag _ | NamesUnset => []
  end.

Definition flagToAliases (o : options) : obj (list string) :=
  match alias o with
  | Some a =>
      fold_left (fun acc key =>
        match js_get key a with
        | Some v => js_set key (alias_list v) acc
        | None => acc
        end) (keys a) []
  | None => []
  end.

Definition defaults_of (o : options) : obj value :=
  match default o with Some d => d | None => [] end.
Definition descriptions_of (o : options) : obj string :=
  match description o with Some d => d | None => [] end.
Definition flagArguments_of (o : options) : obj string :=
  match argument o with Some d => d | None => [] end.
Definition booleanFlags (o : options) : list string := names_list (boolean o).
Definition stringFlags (o : options) : list string := names_list (string_ o).

(** "Enumerate all flags", "Put --help last", "Remove any aliases". *)
Definition flagSet (o : options) : list string :=
  let s0 := fold_left set_add
              (keys (descriptions_of o) ++ booleanFlags o ++ stringFlags o
               ++ keys (flagArguments_of o) ++ keys (defaults_of o)) [] in
  let s1 := set_add (set_delete "help" s0) "help" in
  fold_left (fun s key =>
    match js_get key (flagToAliases o) with
    | Some als => fold_left (fun s f => set_delete f s) als s
    | None => s
    end) (keys (flagToAliases o)) s1.

(** "Determine flag argument types" *)
Definition flagArgumentTypes (o : options) : obj string :=
  let t0 := fold_left (fun acc flag =>
              js_set flag (typeof (js_get_value flag (defaults_of o))) acc)
              (keys (defaults_of o)) [] in
  let t1 := fold_left (fun acc flag => js_set flag "boolean" acc)
              (booleanFlags o) t0 in
  fold_left (fun acc flag => js_set flag "string" acc) (stringFlags o) t1.

(** The [switch] on the argument type. *)
Definition argument_of_type (ty : string) : option string :=
  if String.eqb ty "string" then Some "str"
  else if String.eqb ty "number" then Some "num"
  else if String.eqb ty "boolean" then None
  else Some "arg".

(** [str] for one flag, before the [if (str)] test. *)
Definition argument_string (o : options) (flag : string) : option string :=
  match js_get flag (flagArguments_of o) with
  | Some s => Some s
  | None =>
      if truthy_str (js_get flag (flagArgumentTypes o)) then
        match js_get flag (flagArgumentTypes o) with
        | Some ty => argument_of_type ty
        | None => None
        end
      else None
  end.

(** "Format flag argument names" *)
Definition flagArgumentNames (o : options) : obj string :=
  fold_left (fun acc flag =>
    match argument_string o flag with
    | Some str => if truthy_str (Some str) then js_set flag str acc else acc
    | None => acc
    end) (flagSet o) [].

Definition convertToFlagInfos (o : options) : list FlagInfo.t :=
  map (fun flag =>
    FlagInfo.mk flag
      (js_get flag (flagToAliases o))
      (js_get flag (flagArgumentTypes o))
      (js_get flag (descriptions_of o))
      (js_get flag (flagArgumentNames o))
      (js_get_value flag (defaults_of o))) (flagSet o).

(** ** Rendering helpers (shared by both revisions) *)

Definition Z_to_string (n : Z) : string := NilEmpty.string_of_int (Z.to_int n).

Definition nl : string := String (ascii_of_nat 10) "".
Definition dq : string := String (ascii_of_nat 34) "".

Fixpoint join (sep : string) (l : list string) : string :=
  match l with
  | [] => ""
  | [x] => x
  | x :: r => x ++ sep ++ join sep r
  end.

(** [" ".repeat(n)] *)
Fixpoint spaces (n : nat) : string :=
  match n with 0 => "" | S n => " " ++ spaces n end.

(** [.sort((a, b) => a.length - b.length)]: a stable sort on length. *)
Fixpoint insert_by_length (x : string) (l : list string) : list string :=
  match l with
  | [] => [x]
  | y :: r => if Nat.leb (String.length x) (String.length y) then x :: y :: r
              else y :: insert_by_length x r
  end.

Fixpoint sort_by_length (l : list string) : list string :=
  match l with
  | [] => []
  | x :: r => insert_by_length x (sort_by_length r)
  end.

(** [`-${f.length > 1 ? "-" : ""}${f}`] *)
Definition dashed (f : string) : string :=
  "-" ++ (if Nat.ltb 1 (String.length f) then "-" else "") ++ f.

Definition names_string (flag : string) (aliases : list string) : string :=
  join ", " (map dashed (sort_by_length (flag :: aliases))).

Definition format_line (max : nat) (flagString descriptionString : string)
  : string :=
  "  " ++ flagString ++ spaces (max - String.length flagString) ++ "  "
  ++ descriptionString.

Definition render (flagStrings : list (string * string)) : string :=
  let max := fold_left (fun m fs => Nat.max m (String.length (fst fs)))
               flagStrings 0 in
  "Options:" ++ nl ++
  join nl (map (fun fs => format_line max (fst fs) (snd fs)) flagStrings).

(** ** [formatUsage] (later revision, lines 269-311) *)

(** The default-value [switch]; [None] is [str] left [undefined]. *)
Definition default_string (v : value) : option string :=
  match v with
  | VString s => Some (dq ++ s ++ dq)
  | VNumber n => Some (Z_to_string n)
  | VBoolean b => Some (if b then "true" else "false")
  | VUndefined => None
  | _ => Some (typeof v)
  end.

Definition flagDefaultStrings (infos : list FlagInfo.t) : obj string :=
  fold_left (fun acc info =>
    let str := default_string (FlagInfo.default info) in
    match str with
    | Some s => if truthy_str str then js_set (FlagInfo.flag info) s acc else acc
    | None => acc
    end) infos [].

Definition description_string (desc dflt : option string) : string :=
  if truthy_str desc then
    match desc with Some d => d | None => "" end
    ++ (if truthy_str dflt then
          " (default: " ++ match dflt with Some s => s | None => "" end ++ ")"
        else "")
  else if truthy_str dflt then
    "Default: " ++ match dflt with Some s => s | None => "" end
  else "".

Definition flag_string (info : FlagInfo.t) : string :=
  names_string (FlagInfo.flag info)
    (match FlagInfo.aliases info with Some a => a | None => [] end)
  ++ (if truthy_str (FlagInfo.argumentName info) then
        " <" ++ match FlagInfo.argumentName info with Some s => s | None => "" end
        ++ ">"
      else "").

Definition formatUsage (options : options) : string :=
  let o := addHelpFlagIfNeeded options in
  let flagInfos := convertToFlagInfos o in
  let dstrs := flagDefaultStrings flagInfos in
  render (map (fun info =>
    (flag_string info,
     description_string (FlagInfo.description info)
       (js_get (FlagInfo.flag info) dstrs))) flagInfos).





(** ** The tokenizer collaborator, the heap and [processFlags] *)

(** std/flags' [Args]: named values and the positional sequence [_]. *)
Record args := mkArgs { named : obj value; positional : list value }.

(** A run of the external tokenizer, as a program that may call the
    [unknown] callback with a token and continue with the result. *)
Inductive parse_prog :=
| Done (a : args)
| CallUnknown (arg : string) (k : value -> parse_prog).

Definition tokenizer := list string -> options -> parse_prog.

(** Objects live in a heap so that [addHelpFlagIfNeeded] returning the
    caller's own object, and the later write to it, are visible. *)
Definition heap := list options.

Definition hget (h : heap) (l : nat) : options := nth l h empty_options.

Fixpoint hset (h : heap) (l : nat) (o : options) : heap :=
  match h, l with
  | [], _ => []
  | _ :: r, O => o :: r
  | x :: r, S l => x :: hset r l o
  end.

(** [addHelpFlagIfNeeded] on the heap: the [if] branch returns the very
    object it was given, the [else] branch allocates a new one. *)
Definition addHelpFlagIfNeeded_at (h : heap) (l : nat) : heap * nat :=
  if help_declared (hget h l) then (h, l)
  else ((h ++ [addHelpFlagIfNeeded (hget h l)])%list, length h).

(** Calling an [unknown] callback.  [unknownFlags] is the array the
    wrapper pushes to; [fuel] is the depth of the call stack left, [None]
    the RangeError thrown when it is exhausted.  The wrapper reads
    [options.unknown] when it is called, not when it is created. *)
Fixpoint call_unknown (fuel : nat) (h : heap) (unknownFlags : list string)
  (cb : callback) (arg : string) : option (list string * value) :=
  match fuel with
  | O => None
  | S fuel =>
      match cb with
      | UserFn f => Some (unknownFlags, f arg)
      | Wrapper l =>
          let unknownFlags := (unknownFlags ++ [arg])%list in
          match unknown (hget h l) with
          | Some cb' => call_unknown fuel h unknownFlags cb' arg
          | None => Some (unknownFlags, VUndefined)
          end
      end
  end.

(** Running the tokenizer against the [unknown] property it was given. *)
Fixpoint run_parse (fuel : nat) (h : heap) (cb : option callback)
  (p : parse_prog) (unknownFlags : list string)
  : option (args * list string) :=
  match p with
  | Done a => Some (a, unknownFlags)
  | CallUnknown arg k =>
      match cb with
      | Some cb =>
          match call_unknown fuel h unknownFlags cb arg with
          | Some (uf, r) => run_parse fuel h (Some cb) (k r) uf
          | None => None
          end
      | None => run_parse fuel h None (k VUndefined) unknownFlags
      end
  end.

(** [parseFlags(args, o)] = [parse(args, addHelpFlagIfNeeded(o))]. *)
Definition parseFlags (tokenize : tokenizer) (fuel : nat) (h : heap)
  (argv : list string) (l : nat) (unknownFlags : list string)
  : heap * option (args * list string) :=
  let '(h', lp) := addHelpFlagIfNeeded_at h l in
  (h', run_parse fuel h' (unknown (hget h' lp))
         (tokenize argv (hget h' lp)) unknownFlags).

Inductive outcome :=
| Returned (a : args)
| Exited (logged : list string) (code : Z)
| Threw (error : string).

(** Lines 322-328 of [processFlags]: the augmented object [o] (at [lo]),
    its [unknown] overwritten by the wrapper, and the parse. *)
Definition processFlags_parse (tokenize : tokenizer) (fuel : nat) (h : heap)
  (argv : list string) (l : nat)
  : heap * nat * option (args * list string) :=
  let '(h1, lo) := addHelpFlagIfNeeded_at h l in
  let h2 := hset h1 lo (set_unknown (hget h1 lo) (Wrapper l)) in
  let '(h3, r) := parseFlags tokenize fuel h2 argv lo [] in
  (h3, lo, r).

(** [processFlags]: [logged] lists the [console.log] arguments in order
    (each printed followed by a line break), [code] the [Deno.exit] code. *)
Definition processFlags (tokenize : tokenizer) (fuel : nat) (h : heap)
  (argv : list string) (l : nat) : heap * outcome :=
  let '(h3, lo, r) := processFlags_parse tokenize fuel h argv l in
  match r with
  | None => (h3, Threw "RangeError")
  | Some (parsedArgs, unknownFlags) =>
      let hasUnknownFlags := negb (Nat.eqb (length unknownFlags) 0) in
      if truthy (js_get_value "help" (named parsedArgs)) || hasUnknownFlags
      then
        (h3, Exited
               ((if hasUnknownFlags
                 then [("Unknown arguments: " ++ join " " unknownFlags ++ nl)%string]
                 else [])
                ++ [formatUsage (hget h3 lo)])%list (-1))
      else (h3, Returned parsedArgs)
  end.

(** The text written to the console: each logged string and a line break. *)
Definition console_text (logged : list string) : string :=
  fold_right (fun s acc => s ++ nl ++ acc) "" logged.

(** ** [formatUsage] (earlier revision, lines 30-127)

    Its flag enumeration, alias removal and type determination are the
    same statements as in [convertToFlagInfos] (lines 33-73), embedded
    by [flagToAliases], [flagSet] and [flagArgumentTypes]. *)
Module Earlier.

(** "Format flag arguments": stored when [str !== undefined]. *)
Definition flagArgumentStrings (o : options) : obj string :=
  fold_left (fun acc flag =>
    match argument_string o flag with
    | Some str => js_set flag str acc
    | None => acc
    end) (flagSet o) [].

(** The default-value [switch] of the earlier revision: no [undefined] case. *)
Definition default_string (v : value) : string :=
  match v with
  | VString s => dq ++ s ++ dq
  | VNumber n => Z_to_string n
  | VBoolean b => if b then "true" else "false"
  | _ => typeof v
  end.

Definition flagDefaultStrings (o : options) : obj string :=
  fold_left (fun acc flag =>
    js_set flag (default_string (js_get_value flag (defaults_of o))) acc)
    (keys (defaults_of o)) [].

Definition formatUsage (options : options) : string :=
  let o := addHelpFlagIfNeeded options in
  let args := flagArgumentStrings o in
  let dstrs := flagDefaultStrings o in
  render (map (fun flag =>
    (names_string flag
       (match js_get flag (flagToAliases o) with Some a => a | None => [] end)
     ++ (if truthy_str (js_get flag args) then
           " <" ++ match js_get flag args with Some s => s | None => "" end
           ++ ">"
         else ""),
     description_string (js_get flag (descriptions_of o))
       (js_get flag dstrs))) (flagSet o)).

(** [logUsage] (lines 129-131): the [console.log] arguments. *)
Definition logUsage (o : options) : list string := [formatUsage o].

(** [parseArgs] (lines 133-135), the same statement as [parseFlags]. *)
Definition parseArgs (tokenize : tokenizer) (fuel : nat) (h : heap)
  (argv : list string) (l : nat) (unknownFlags : list string)
  : heap * option (args * list string) :=
  let '(h', lp) := addHelpFlagIfNeeded_at h l in
  (h', run_parse fuel h' (unknown (hget h' lp))
         (tokenize argv (hget h' lp)) unknownFlags).

(** [processArgs] (lines 137-158): the body of [processFlags], calling
    [parseArgs] and the earlier [logUsage]. *)
Definition processArgs (tokenize : tokenizer) (fuel : nat) (h : heap)
  (argv : list string) (l : nat) : heap * outcome :=
  let '(h1, lo) := addHelpFlagIfNeeded_at h l in
  let h2 := hset h1 lo (set_unknown (hget h1 lo) (Wrapper l)) in
  let '(h3, r) := parseArgs tokenize fuel h2 argv lo [] in
  match r with
  | None => (h3, Threw "RangeError")
  | Some (parsedArgs, unknownFlags) =>
      let hasUnknownFlags := negb (Nat.eqb (length unknownFlags) 0) in
      if truthy (js_get_value "help" (named parsedArgs)) || hasUnknownFlags
      then
        (h3, Exited
               ((if hasUnknownFlags
                 then [("Unknown arguments: " ++ join " " unknownFlags ++ nl)%string]
                 else [])
                ++ logUsage (hget h3 lo))%list (-1))
      else (h3, Returned parsedArgs)
  end.

End Earlier.

(** *** A model of the tokenizer: std/flags@0.114.0 [parse]

    This is the collaborator's code, not the module's; it is modelled to
    evaluate [processFlags] on concrete tokens.  Covered: the split at
    [--], [--key=value], [--no-key], [--key] and short clusters [-abc]
    with the following-token rule, bare words, and the [unknown] calls of
    [setArg] and of the bare-word branch.  Not modelled: numeric
    conversion of values, dotted keys, [stopEarly], the [=] and digit
    cases inside short clusters, the initial [false] of boolean flags and
    the defaults written after the loop, and arrays for repeated flags
    (the last value is kept). *)
Module StdFlags.

(** [aliases]: each key and each of its aliases maps to the others. *)
Definition aliases (o : options) : obj (list string) :=
  match alias o with
  | Some a =>
      fold_left (fun acc key =>
        match js_get key a with
        | Some v =>
            let l := alias_list v in
            fold_left (fun acc x =>
              js_set x (key :: filter (fun y => negb (String.eqb x y)) l) acc)
              l (js_set key l acc)
        | None => acc
        end) (keys a) []
  | None => []
  end.

Definition allBools (o : options) : bool :=
  match boolean o with NamesFlag b => b | _ => false end.

Definition mem (x : string) (l : list string) : bool := existsb (String.eqb x) l.

Definition is_bool (o : options) (key : string) : bool := mem key (booleanFlags o).

(** [flags.strings]: the string flags and their aliases. *)
Definition is_string (o : options) (key : string) : bool :=
  mem key (stringFlags o) ||
  existsb (fun k => match js_get k (aliases o) with
                    | Some l => mem key l | None => false end) (stringFlags o).

(** [/^--[^=]+$/] *)
Definition long_without_eq (arg : string) : bool :=
  String.prefix "--" arg && Nat.ltb 2 (String.length arg) &&
  match String.index 0 "=" arg with Some _ => false | None => true end.

Definition argDefined (o : options) (key arg : string) : bool :=
  (allBools o && long_without_eq arg) || is_bool o key || is_string o key ||
  match js_get key (aliases o) with Some _ => true | None => false end.

Definition set_named (o : options) (key : string) (v : value) (a : args) : args :=
  let n := js_set key v (named a) in
  mkArgs (fold_left (fun n x => js_set x v n)
            (match js_get key (aliases o) with Some l => l | None => [] end) n)
    (positional a).

Definition is_false (v : value) : bool :=
  match v with VBoolean false => true | _ => false end.

Definition setArg (o : options) (key : string) (v : value) (arg : string)
  (a : args) (k : args -> parse_prog) : parse_prog :=
  match unknown o with
  | Some _ =>
      if argDefined o key arg then k (set_named o key v a)
      else CallUnknown arg (fun r =>
             if is_false r then k a else k (set_named o key v a))
  | None => k (set_named o key v a)
  end.

(** [get(flags.strings, key) ? "" : true] *)
Definition bare_value (o : options) (key : string) : value :=
  if is_string o key then VString "" else VBoolean true.

Fixpoint set_all (o : options) (ks : list string) (arg : string) (a : args)
  (k : args -> parse_prog) : parse_prog :=
  match ks with
  | [] => k a
  | x :: r => setArg o x (bare_value o x) arg a (fun a => set_all o r arg a k)
  end.

(** Whether [--key next] takes [next] as the value. *)
Definition takes_next (o : options) (key next : string) : bool :=
  negb (String.prefix "-" next) && negb (is_bool o key) && negb (allBools o) &&
  match js_get key (aliases o) with
  | Some l => negb (existsb (is_bool o) l)
  | None => true
  end.

Inductive token :=
| TokEq (key value : string)
| TokNo (key : string)
| TokKey (pre : list string) (key : string)
| TokWord.

Fixpoint chars (s : string) : list string :=
  match s with
  | EmptyString => []
  | String c r => String c EmptyString :: chars r
  end.

Definition classify (t : string) : token :=
  let n := String.length t in
  let body := substring 2 (n - 2) t in
  if String.prefix "--" t then
    match String.index 0 "=" body with
    | Some (S i) => TokEq (substring 0 (S i) body) (substring (S (S i)) n body)
    | _ =>
        if String.prefix "--no-" t && Nat.ltb 5 n then TokNo (substring 5 n t)
        else if Nat.ltb 2 n then TokKey [] body
        else TokWord
    end
  else if String.prefix "-" t && Nat.ltb 1 n then
    let letters := chars (substring 1 n t) in
    TokKey (removelast letters) (last letters "")
  else TokWord.

Fixpoint loop (o : options) (toks : list string) (a : args) : parse_prog :=
  match toks with
  | [] => Done a
  | t :: rest =>
      match classify t with
      | TokEq key v =>
          setArg o key
            (if is_bool o key then VBoolean (negb (String.eqb v "false"))
             else VString v) t a (fun a => loop o rest a)
      | TokNo key => setArg o key (VBoolean false) t a (fun a => loop o rest a)
      | TokKey pre key =>
          set_all o pre t a (fun a =>
            match rest with
            | next :: rest' =>
                if takes_next o key next then
                  setArg o key (VString next) t a (fun a => loop o rest' a)
                else if String.eqb next "true" || String.eqb next "false" then
                  setArg o key (VBoolean (String.eqb next "true")) t a
                    (fun a => loop o rest' a)
                else setArg o key (bare_value o key) t a (fun a => loop o rest a)
            | [] => setArg o key (bare_value o key) t a (fun a => loop o rest a)
            end)
      | TokWord =>
          let pushed := mkArgs (named a) (positional a ++ [VString t]) in
          match unknown o with
          | Some _ => CallUnknown t (fun r =>
                        if is_false r then loop o rest a else loop o rest pushed)
          | None => loop o rest pushed
          end
      end
  end.

Fixpoint split_dashdash (toks : list string) : list string * list string :=
  match toks with
  | [] => ([], [])
  | t :: r =>
      if String.eqb t "--" then ([], r)
      else let '(b, a) := split_dashdash r in (t :: b, a)
  end.

Definition parse : tokenizer := fun argv o =>
  let '(before, notFlags) := split_dashdash argv in
  let fix finish (p : parse_prog) : parse_prog :=
    match p with
    | Done a => Done (mkArgs (named a) (positional a ++ map VString notFlags))
    | CallUnknown arg k => CallUnknown arg (fun r => finish (k r))
    end in
  finish (loop o before (mkArgs [] [])).

End StdFlags.

(** ** Configurations used below *)

Definition example_options : options :=
  mkOptions None (Some [("output", "Output directory")])
    (Some [("output", "dir")]) NamesUnset (NamesMany ["output"])
    (Some [("output", VString "out")]) None None.

Definition undefined_default_options : options :=
  mkOptions None None None NamesUnset NamesUnset
    (Some [("x", VUndefined)]) None None.

Definition preamble_options : options :=
  mkOptions None (Some [("output", "Output directory")])
    (Some [("output", "dir")]) NamesUnset (NamesMany ["output"])
    (Some [("output", VString "out")]) None (Some "Usage: my-tool <options>").

Definition with_preamble (o : options) (p : option string) : options :=
  mkOptions (alias o) (description o) (argument o) (boolean o) (string_ o)
    (default o) (unknown o) p.

Definition both_lists_options : options :=
  mkOptions None None None (NamesMany ["x"]) (NamesMany ["x"]) None None None.

Definition boolean_placeholder_options : options :=
  mkOptions None None (Some [("v", "x")]) (NamesMany ["v"]) NamesUnset
    None None None.

Definition empty_help_options : options :=
  mkOptions None (Some [("help", "")]) None NamesUnset NamesUnset None None None.

Definition help_alias_options : options :=
  mkOptions (Some [("x", AliasOne "help")]) None None NamesUnset NamesUnset
    None None None.

Definition help_declared_options : options :=
  mkOptions None (Some [("help", "Show help")]) None NamesUnset NamesUnset
    None None None.

(** A caller's configuration with its own [unknown] callback, which
    rejects every token. *)
Definition rejecting_options : options :=
  mkOptions None (Some [("output", "Output directory")]) None NamesUnset
    (NamesMany ["output"]) None (Some (UserFn (fun _ => VBoolean false))) None.

(** Whether a tokenizer run calls the [unknown] callback first. *)
Definition calls_unknown (p : parse_prog) : bool :=
  match p with CallUnknown _ _ => true | Done _ => false end.

(** The names "Enumerate all flags" adds to [flagSet], in order. *)
Definition declared_names (o : options) : list string :=
  keys (descriptions_of o) ++ booleanFlags o ++ stringFlags o
  ++ keys (flagArguments_of o) ++ keys (defaults_of o).

(** Every name the alias loop of [convertToFlagInfos] deletes. *)
Definition removed_aliases (o : options) : list string :=
  concat (map (fun key =>
    match js_get key (flagToAliases o) with Some l => l | None => [] end)
    (keys (flagToAliases o))).

(** The six properties [convertToFlagInfos] reads agree. *)
Definition same_fields (o o' : options) : Prop :=
  alias o = alias o' /\ description o = description o' /\
  argument o = argument o' /\ boolean o = boolean o' /\
  string_ o = string_ o' /\ default o = default o'.

(** * Properties *)

(** ** Dictionaries *)

Section Dictionaries.
Context {A : Type}.

Lemma js_get_set (k k' : string) (v : A) (o : obj A) :
  js_get k (js_set k' v o) = if String.eqb k k' then Some v else js_get k o.
Proof.
  induction o as [|[k0 v0] r IH]; simpl.
  - reflexivity.
  - destruct (String.eqb_spec k' k0) as [->|Hne]; simpl.
    + destruct (String.eqb k k0); reflexivity.
    + rewrite IH. destruct (String.eqb_spec k k0) as [->|Hk0].
      * destruct (String.eqb_spec k0 k') as [->|]; [congruence|reflexivity].
      * reflexivity.
Qed.

(** A property write keeps the key order: an existing key stays where it
    is, a new key is appended. *)
Lemma keys_js_set (k : string) (v : A) (o : obj A) :
  keys (js_set k v o) =
  if existsb (String.eqb k) (keys o) then keys o else (keys o ++ [k])%list.
Proof.
  induction o as [|[k0 v0] r IH]; simpl; [reflexivity|].
  destruct (String.eqb k k0) eqn:E; simpl; [reflexivity|].
  rewrite IH. destruct (existsb (String.eqb k) (keys r)); reflexivity.
Qed.

(** A dictionary built by a loop whose step for an element [x] writes
    key [kf x] with a value determined by that key (or writes nothing). *)
Lemma js_get_fold {X} (step : obj A -> X -> obj A) (kf : X -> string)
  (g : string -> option A) :
  (forall acc x k, js_get k (step acc x) =
     if String.eqb k (kf x)
     then match g k with Some v => Some v | None => js_get k acc end
     else js_get k acc) ->
  forall l acc k, js_get k (fold_left step l acc) =
    if existsb (fun x => String.eqb k (kf x)) l
    then match g k with Some v => Some v | None => js_get k acc end
    else js_get k acc.
Proof.
  intros Hstep l. induction l as [|x l IH]; intros acc k; simpl.
  - reflexivity.
  - rewrite IH, Hstep.
    destruct (String.eqb k (kf x)); simpl;
      destruct (existsb _ l); destruct (g k); reflexivity.
Qed.

End Dictionaries.

Lemma filter_filter_and {X} (p q : X -> bool) (l : list X) :
  filter p (filter q l) = filter (fun x => q x && p x) l.
Proof.
  induction l as [|x l IH]; simpl; [reflexivity|].
  destruct (q x); simpl; [destruct (p x); simpl|]; rewrite IH; reflexivity.
Qed.

Lemma fold_set_delete (als s : list string) :
  fold_left (fun s f => set_delete f s) als s =
  filter (fun y => forallb (fun f => negb (String.eqb f y)) als) s.
Proof.
  revert s. induction als as [|a als IH]; intro s; simpl.
  - induction s as [|y s IHs]; simpl; congruence.
  - rewrite IH. unfold set_delete. rewrite filter_filter_and. reflexivity.
Qed.

(** ** Field dependence *)

Lemma convertToFlagInfos_ext (o o' : options) :
  same_fields o o' -> convertToFlagInfos o = convertToFlagInfos o'.
Proof.
  intros (Ha & Hd & Hg & Hb & Hs & Hf).
  unfold convertToFlagInfos, flagArgumentNames, argument_string.
  unfold flagSet, flagToAliases, flagArgumentTypes, defaults_of,
    descriptions_of, flagArguments_of, booleanFlags, stringFlags.
  rewrite Ha, Hd, Hg, Hb, Hs, Hf. reflexivity.
Qed.

Lemma help_declared_ext (o o' : options) :
  same_fields o o' -> help_declared o = help_declared o'.
Proof. intros (_ & Hd & _). unfold help_declared. rewrite Hd. reflexivity. Qed.

Lemma addHelpFlagIfNeeded_ext (o o' : options) :
  same_fields o o' ->
  same_fields (addHelpFlagIfNeeded o) (addHelpFlagIfNeeded o').
Proof.
  intro H. unfold addHelpFlagIfNeeded. rewrite (help_declared_ext o o' H).
  destruct H as (Ha & Hd & Hg & Hb & Hs & Hf).
  destruct (help_declared o'); [repeat split; assumption|].
  unfold same_fields; simpl. rewrite Ha, Hd, Hg, Hb, Hs, Hf.
  repeat split.
Qed.

Lemma formatUsage_ext (o o' : options) :
  same_fields o o' -> formatUsage o = formatUsage o'.
Proof.
  intro H. unfold formatUsage.
  rewrite (convertToFlagInfos_ext _ _ (addHelpFlagIfNeeded_ext o o' H)).
  reflexivity.
Qed.

(** ** The heap *)

Lemma hget_hset_same (h : heap) (l : nat) (o : options) :
  l < length h -> hget (hset h l o) l = o.
Proof.
  unfold hget. revert l. induction h as [|x h IH]; intros [|l] Hl; simpl in *;
    try lia; [reflexivity|]. apply IH. lia.
Qed.

Lemma hget_hset_other (h : heap) (l l' : nat) (o : options) :
  l <> l' -> hget (hset h l o) l' = hget h l'.
Proof.
  unfold hget. revert l l'. induction h as [|x h IH]; intros [|l] [|l'] Hne;
    simpl; try reflexivity; try congruence.
  apply IH. congruence.
Qed.

Lemma hget_app_lt (h h' : heap) (l : nat) :
  l < length h -> hget (h ++ h')%list l = hget h l.
Proof. intro Hl. unfold hget. apply app_nth1. exact Hl. Qed.

Lemma hget_app_length (h : heap) (o : options) :
  hget (h ++ [o])%list (length h) = o.
Proof.
  unfold hget. rewrite app_nth2 by lia. rewrite Nat.sub_diag. reflexivity.
Qed.

Lemma help_declared_set_unknown (o : options) (cb : callback) :
  help_declared (set_unknown o cb) = help_declared o.
Proof. reflexivity. Qed.

Lemma help_declared_addHelpFlagIfNeeded (o : options) :
  help_declared (addHelpFlagIfNeeded o) = true.
Proof.
  unfold addHelpFlagIfNeeded. destruct (help_declared o) eqn:E; [exact E|].
  unfold help_declared; simpl. rewrite js_get_set. reflexivity.
Qed.

Lemma addHelpFlagIfNeeded_idem (o : options) :
  addHelpFlagIfNeeded (addHelpFlagIfNeeded o) = addHelpFlagIfNeeded o.
Proof.
  unfold addHelpFlagIfNeeded at 1.
  rewrite help_declared_addHelpFlagIfNeeded. reflexivity.
Qed.

(** [processFlags] on a caller's object whose [description.help] is
    truthy: the augmented object is the caller's object itself. *)
Lemma processFlags_parse_declared (tokenize : tokenizer) (fuel : nat)
  (h : heap) (argv : list string) (l : nat) :
  l < length h -> help_declared (hget h l) = true ->
  processFlags_parse tokenize fuel h argv l =
  (hset h l (set_unknown (hget h l) (Wrapper l)), l,
   run_parse fuel (hset h l (set_unknown (hget h l) (Wrapper l))) (Some (Wrapper l))
     (tokenize argv (set_unknown (hget h l) (Wrapper l))) []).
Proof.
  intros Hl Hd. unfold processFlags_parse, addHelpFlagIfNeeded_at.
  rewrite Hd. unfold parseFlags, addHelpFlagIfNeeded_at.
  rewrite hget_hset_same by exact Hl.
  rewrite help_declared_set_unknown, Hd. cbv beta iota.
  rewrite hget_hset_same by exact Hl. reflexivity.
Qed.

(** Otherwise a new object is allocated after the caller's heap. *)
Lemma processFlags_parse_fresh (tokenize : tokenizer) (fuel : nat)
  (h : heap) (argv : list string) (l : nat) :
  help_declared (hget h l) = false ->
  let o := set_unknown (addHelpFlagIfNeeded (hget h l)) (Wrapper l) in
  let h2 := hset (h ++ [addHelpFlagIfNeeded (hget h l)])%list (length h) o in
  processFlags_parse tokenize fuel h argv l =
  (h2, length h, run_parse fuel h2 (Some (Wrapper l)) (tokenize argv o) []).
Proof.
  intros Hd o h2. unfold processFlags_parse, addHelpFlagIfNeeded_at.
  rewrite Hd. unfold parseFlags, addHelpFlagIfNeeded_at.
  rewrite hget_hset_same by (rewrite length_app; simpl; lia).
  rewrite hget_app_length.
  rewrite help_declared_set_unknown, help_declared_addHelpFlagIfNeeded.
  cbv beta iota.
  rewrite hget_hset_same by (rewrite length_app; simpl; lia).
  reflexivity.
Qed.

Lemma fst_processFlags (tokenize : tokenizer) (fuel : nat) (h : heap)
  (argv : list string) (l : nat) :
  fst (processFlags tokenize fuel h argv l) =
  fst (fst (processFlags_parse tokenize fuel h argv l)).
Proof.
  unfold processFlags.
  destruct (processFlags_parse tokenize fuel h argv l) as [[h3 lo] [[a uf]|]];
    simpl; [destruct (_ || _)|]; reflexivity.
Qed.

(** The [else] branch of [addHelpFlagIfNeeded] copies: there
    [processFlags] leaves the caller's object as it was. *)
Lemma processFlags_copy_keeps_caller_object (tokenize : tokenizer)
  (fuel : nat) (h : heap) (argv : list string) (l : nat) :
  l < length h -> help_declared (hget h l) = false ->
  hget (fst (processFlags tokenize fuel h argv l)) l = hget h l.
Proof.
  intros Hl Hd. rewrite fst_processFlags.
  rewrite (processFlags_parse_fresh tokenize fuel h argv l Hd). simpl.
  rewrite hget_hset_other by lia. apply hget_app_lt. exact Hl.
Qed.

(** ** C1: the README example *)

(** C1: formatting [{description: {output: "Output directory"},
    argument: {output: "dir"}, string: ["output"], default: {output: "out"}}]
    gives exactly the [Options:] header, the [--output <dir>] line and the
    help line, with no trailing line break. *)
Theorem formatUsage_example_output :
  formatUsage example_options =
  "Options:" ++ nl ++
  "  --output <dir>  Output directory (default: " ++ dq ++ "out" ++ dq ++ ")"
  ++ nl ++ "  -h, -?, --help  Display usage information".
Proof. vm_compute. reflexivity. Qed.

(** ** C2: no preamble *)

(** C2 (counterexample): with [preamble: "Usage: my-tool <options>"] added
    to the README configuration, the output is not the preamble, a blank
    line and the options block. *)
Lemma formatUsage_preamble_not_prepended :
  formatUsage preamble_options <>
  "Usage: my-tool <options>" ++ nl ++ nl ++ formatUsage example_options.
Proof. intro H. vm_compute in H. discriminate H. Qed.

(** C2 (as amended): [formatUsage] has no preamble support: a preamble
    property does not change the output, which always starts with the
    [Options:] header and a line break. *)
Theorem formatUsage_ignores_preamble (o : options) (p : option string) :
  formatUsage (with_preamble o p) = formatUsage o /\
  exists rest, formatUsage o = "Options:" ++ nl ++ rest.
Proof.
  split.
  - apply formatUsage_ext. repeat split.
  - eexists. reflexivity.
Qed.

(** ** C3: [processFlags] writes to the caller's object *)

(** C3 (code defect): when the caller's [description.help] is truthy,
    [addHelpFlagIfNeeded] returns the caller's own object and
    [processFlags] overwrites its [unknown] property with the wrapper. *)
Theorem processFlags_overwrites_caller_unknown (tokenize : tokenizer)
  (fuel : nat) (h : heap) (argv : list string) (l : nat) :
  l < length h -> help_declared (hget h l) = true ->
  hget (fst (processFlags tokenize fuel h argv l)) l =
  set_unknown (hget h l) (Wrapper l).
Proof.
  intros Hl Hd. rewrite fst_processFlags.
  rewrite (processFlags_parse_declared tokenize fuel h argv l Hl Hd). simpl.
  apply hget_hset_same. exact Hl.
Qed.

Lemma processFlags_overwrites_caller_unknown_witness :
  unknown help_declared_options = None /\
  hget (fst (processFlags StdFlags.parse 100 [help_declared_options] [] 0)) 0 =
  set_unknown help_declared_options (Wrapper 0).
Proof.
  split; [reflexivity|].
  apply (processFlags_overwrites_caller_unknown StdFlags.parse 100
           [help_declared_options] [] 0); vm_compute; [lia|reflexivity].
Defined.

(** The wrapper then forwards to itself: the first unknown token exhausts
    the stack. *)
Lemma processFlags_help_declared_recursion :
  snd (processFlags StdFlags.parse 100 [help_declared_options] ["--bogus"] 0)
  = Threw "RangeError".
Proof. vm_compute. reflexivity. Qed.

(** ** C7: help-flag injection *)

(** C7 (counterexample): an empty-string help description is falsy, so
    it is replaced rather than respected. *)
Lemma addHelpFlagIfNeeded_replaces_empty_help :
  js_get "help" (descriptions_of empty_help_options) = Some "" /\
  js_get "help" (descriptions_of (addHelpFlagIfNeeded empty_help_options)) =
  Some "Display usage information".
Proof. split; reflexivity. Qed.

(** C7 (as amended): without a truthy help description the result is a
    copy whose alias map is the caller's (or an empty one) with [help]
    set to [["h", "?"]], and whose description map is the caller's (or an
    empty one) with [help] set to ["Display usage information"]: every
    other entry is kept with its value, the keys keep their order and
    [help] is appended when it was absent; the other properties are
    unchanged.  With a truthy help description (a non-empty string) the
    configuration is returned as it is.  Applying the normalization twice
    equals applying it once. *)
Theorem addHelpFlagIfNeeded_spec (o : options) :
  (if help_declared o then addHelpFlagIfNeeded o = o
   else
     let am := match alias o with Some a => a | None => [] end in
     let dm := descriptions_of o in
     exists a' d',
       alias (addHelpFlagIfNeeded o) = Some a' /\
       description (addHelpFlagIfNeeded o) = Some d' /\
       (forall k, js_get k a' =
          if String.eqb k "help" then Some (AliasMany ["h"; "?"])
          else js_get k am) /\
       keys a' = (if existsb (String.eqb "help") (keys am) then keys am
                  else keys am ++ ["help"])%list /\
       (forall k, js_get k d' =
          if String.eqb k "help" then Some "Display usage information"
          else js_get k dm) /\
       keys d' = (if existsb (String.eqb "help") (keys dm) then keys dm
                  else keys dm ++ ["help"])%list /\
       argument (addHelpFlagIfNeeded o) = argument o /\
       boolean (addHelpFlagIfNeeded o) = boolean o /\
       string_ (addHelpFlagIfNeeded o) = string_ o /\
       default (addHelpFlagIfNeeded o) = default o /\
       unknown (addHelpFlagIfNeeded o) = unknown o /\
       preamble (addHelpFlagIfNeeded o) = preamble o) /\
  addHelpFlagIfNeeded (addHelpFlagIfNeeded o) = addHelpFlagIfNeeded o.
Proof.
  split.
  - unfold addHelpFlagIfNeeded. destruct (help_declared o); [reflexivity|].
    cbv zeta. eexists. eexists. split; [reflexivity|]. split; [reflexivity|].
    split; [intro k; apply js_get_set|]. split; [apply keys_js_set|].
    split; [intro k; apply js_get_set|]. split; [apply keys_js_set|].
    repeat split.
  - unfold addHelpFlagIfNeeded at 1.
    rewrite help_declared_addHelpFlagIfNeeded. reflexivity.
Qed.

(** ** Type and placeholder inference *)

Lemma existsb_eqb_In (f : string) (l : list string) :
  In f l -> existsb (String.eqb f) l = true.
Proof.
  intro H. apply existsb_exists. exists f. split; [exact H|].
  apply String.eqb_refl.
Qed.

Lemma flagArgumentTypes_get (o : options) (f : string) :
  js_get f (flagArgumentTypes o) =
  if existsb (String.eqb f) (stringFlags o) then Some "string"
  else if existsb (String.eqb f) (booleanFlags o) then Some "boolean"
  else if existsb (String.eqb f) (keys (defaults_of o))
  then Some (typeof (js_get_value f (defaults_of o)))
  else None.
Proof.
  unfold flagArgumentTypes.
  rewrite (js_get_fold _ (fun x => x) (fun _ => Some "string"))
    by (intros; apply js_get_set).
  rewrite (js_get_fold _ (fun x => x) (fun _ => Some "boolean"))
    by (intros; apply js_get_set).
  rewrite (js_get_fold _ (fun x => x)
             (fun k => Some (typeof (js_get_value k (defaults_of o))))).
  - reflexivity.
  - intros acc x k. rewrite js_get_set.
    destruct (String.eqb_spec k x) as [->|]; reflexivity.
Qed.

Lemma flagArgumentNames_get (o : options) (f : string) :
  js_get f (flagArgumentNames o) =
  if existsb (String.eqb f) (flagSet o) && truthy_str (argument_string o f)
  then argument_string o f else None.
Proof.
  unfold flagArgumentNames.
  rewrite (js_get_fold _ (fun x => x)
    (fun k => if truthy_str (argument_string o k)
              then argument_string o k else None)).
  - simpl. destruct (existsb _ (flagSet o)); simpl; [|reflexivity].
    destruct (truthy_str (argument_string o f)); [|reflexivity].
    destruct (argument_string o f); reflexivity.
  - intros acc x k.
    destruct (String.eqb_spec k x) as [->|Hne];
      destruct (argument_string o x) as [s|] eqn:E; simpl;
      try (destruct (negb (String.eqb s "")) eqn:T);
      try rewrite js_get_set;
      try (rewrite String.eqb_refl); try rewrite E; simpl; try rewrite T;
      try reflexivity;
      try (apply String.eqb_neq in Hne; rewrite Hne; reflexivity).
Qed.

Lemma In_convertToFlagInfos (o : options) (i : FlagInfo.t) :
  In i (convertToFlagInfos o) ->
  In (FlagInfo.flag i) (flagSet o) /\
  i = FlagInfo.mk (FlagInfo.flag i)
        (js_get (FlagInfo.flag i) (flagToAliases o))
        (js_get (FlagInfo.flag i) (flagArgumentTypes o))
        (js_get (FlagInfo.flag i) (descriptions_of o))
        (js_get (FlagInfo.flag i) (flagArgumentNames o))
        (js_get_value (FlagInfo.flag i) (defaults_of o)).
Proof.
  unfold convertToFlagInfos. intro H. apply in_map_iff in H.
  destruct H as (f & <- & Hf). simpl. split; [exact Hf|reflexivity].
Qed.

(** ** C4: type precedence *)

(** C4 (counterexample): a flag in both the boolean and the string list
    gets type ["string"]. *)
Lemma flagInfo_type_both_lists :
  existsb (String.eqb "x") (booleanFlags both_lists_options) = true /\
  map (fun i => (FlagInfo.flag i, FlagInfo.type i))
    (convertToFlagInfos (addHelpFlagIfNeeded both_lists_options)) =
  [("x", Some "string"); ("help", None)].
Proof. split; vm_compute; reflexivity. Qed.

(** C4 (as amended): the type of every [FlagInfo] follows string-list
    membership first, then boolean-list membership, then the [typeof] of
    the default when the flag has one; otherwise it is unset. *)
Theorem flagInfo_type_precedence (o : options) :
  map (fun i => (FlagInfo.flag i, FlagInfo.type i)) (convertToFlagInfos o) =
  map (fun f =>
    (f, if existsb (String.eqb f) (stringFlags o) then Some "string"
        else if existsb (String.eqb f) (booleanFlags o) then Some "boolean"
        else if existsb (String.eqb f) (keys (defaults_of o))
        then Some (typeof (js_get_value f (defaults_of o)))
        else None)) (flagSet o).
Proof.
  unfold convertToFlagInfos. rewrite map_map. apply map_ext. intro f.
  simpl. rewrite flagArgumentTypes_get. reflexivity.
Qed.

(** ** C5: placeholders of boolean flags *)

(** C5 (counterexample): [{boolean: ["v"], argument: {v: "x"}}] renders
    [-v <x>]. *)
Lemma boolean_flag_explicit_placeholder :
  existsb (String.eqb "v") (booleanFlags boolean_placeholder_options) = true /\
  formatUsage boolean_placeholder_options =
  "Options:" ++ nl ++ "  -v <x>          " ++ nl ++
  "  -h, -?, --help  Display usage information".
Proof. split; vm_compute; reflexivity. Qed.

(** C5 (as amended): for a flag in the boolean list and not in the string
    list, the flag-string has a placeholder exactly when the argument map
    gives the flag a non-empty name, and then shows that name. *)
Theorem boolean_flag_placeholder (o : options) (i : FlagInfo.t) :
  In i (convertToFlagInfos o) ->
  existsb (String.eqb (FlagInfo.flag i)) (booleanFlags o) = true ->
  existsb (String.eqb (FlagInfo.flag i)) (stringFlags o) = false ->
  flag_string i =
  names_string (FlagInfo.flag i)
    (match FlagInfo.aliases i with Some a => a | None => [] end) ++
  (if truthy_str (js_get (FlagInfo.flag i) (flagArguments_of o)) then
     " <" ++ match js_get (FlagInfo.flag i) (flagArguments_of o) with
             | Some s => s | None => "" end ++ ">"
   else "").
Proof.
  intros Hi Hb Hs. destruct (In_convertToFlagInfos o i Hi) as [Hf Hieq].
  destruct i as [f als ty desc name dflt]. simpl in *.
  injection Hieq as _ _ _ Hname _.
  assert (Harg : argument_string o f = js_get f (flagArguments_of o)).
  { unfold argument_string.
    destruct (js_get f (flagArguments_of o)); [reflexivity|].
    rewrite flagArgumentTypes_get, Hs, Hb. reflexivity. }
  unfold flag_string. simpl. rewrite Hname.
  rewrite flagArgumentNames_get, (existsb_eqb_In f _ Hf), Harg. simpl.
  destruct (truthy_str (js_get f (flagArguments_of o))) eqn:T; simpl; rewrite ?T; reflexivity.
Qed.

Lemma boolean_flag_placeholder_witness :
  let i := FlagInfo.mk "v" None (Some "boolean") None (Some "x") VUndefined in
  In i (convertToFlagInfos (addHelpFlagIfNeeded boolean_placeholder_options)) /\
  flag_string i = "-v <x>".
Proof.
  intro i. split; [vm_compute; left; reflexivity|].
  rewrite (boolean_flag_placeholder
             (addHelpFlagIfNeeded boolean_placeholder_options) i);
    vm_compute; [reflexivity|left; reflexivity|reflexivity|reflexivity].
Defined.

(** ** The help flag's position *)

Lemma filter_true {X} (l : list X) : filter (fun _ => true) l = l.
Proof. induction l as [|x l IH]; simpl; congruence. Qed.

Lemma forallb_neq_existsb (y : string) (l : list string) :
  forallb (fun f => negb (String.eqb f y)) l = negb (existsb (String.eqb y) l).
Proof.
  induction l as [|x l IH]; simpl; [reflexivity|].
  rewrite IH, String.eqb_sym. destruct (String.eqb y x); reflexivity.
Qed.

(** The alias loop deletes every listed alias. *)
Lemma fold_remove_aliases (fta : obj (list string)) (ks s : list string) :
  fold_left (fun s key =>
    match js_get key fta with
    | Some als => fold_left (fun s f => set_delete f s) als s
    | None => s
    end) ks s =
  filter (fun y => negb (existsb (String.eqb y)
    (concat (map (fun key =>
       match js_get key fta with Some l => l | None => [] end) ks)))) s.
Proof.
  revert s. induction ks as [|k ks IH]; intro s; simpl.
  - symmetry. apply filter_true.
  - destruct (js_get k fta) as [als|].
    + rewrite IH, fold_set_delete, filter_filter_and.
      apply filter_ext. intro y.
      rewrite forallb_neq_existsb, existsb_app. simpl.
      destruct (existsb (String.eqb y) als); reflexivity.
    + rewrite IH. reflexivity.
Qed.

Lemma not_In_set_delete (x : string) (s : list string) :
  ~ In x (set_delete x s).
Proof.
  unfold set_delete. rewrite filter_In. intros [_ H].
  rewrite String.eqb_refl in H. discriminate.
Qed.

Lemma set_add_after_delete (x : string) (s : list string) :
  set_add (set_delete x s) x = (set_delete x s ++ [x])%list.
Proof.
  unfold set_add. destruct (existsb (String.eqb x) (set_delete x s)) eqn:E;
    [|reflexivity].
  apply existsb_exists in E. destruct E as (y & Hy & Heq).
  apply String.eqb_eq in Heq. subst y. exfalso. exact (not_In_set_delete x s Hy).
Qed.

Lemma flagSet_shape (o : options) :
  exists del, ~ In "help" del /\
  flagSet o =
  filter (fun y => negb (existsb (String.eqb y) (removed_aliases o)))
    (del ++ ["help"])%list.
Proof.
  unfold flagSet. rewrite set_add_after_delete, fold_remove_aliases.
  eexists. split; [apply not_In_set_delete|reflexivity].
Qed.

Lemma flags_of_convertToFlagInfos (o : options) :
  map FlagInfo.flag (convertToFlagInfos o) = flagSet o.
Proof. unfold convertToFlagInfos. rewrite map_map. apply map_id. Qed.

(** ** C8: the help flag is last *)

(** C8 (counterexample): with [alias: {x: "help"}] the help flag is
    deleted as an alias: no [FlagInfo] and no line for it. *)
Lemma help_flag_removed_as_alias :
  map FlagInfo.flag (convertToFlagInfos (addHelpFlagIfNeeded help_alias_options))
    = [] /\
  formatUsage help_alias_options = "Options:" ++ nl.
Proof. split; vm_compute; reflexivity. Qed.

(** C8 (as amended): unless ["help"] is listed as an alias in the
    (augmented) alias map, the [FlagInfo] sequence contains exactly one
    record for ["help"], the last one; when it is listed, there is none. *)
Theorem help_flagInfo_last (options : options) :
  let o := addHelpFlagIfNeeded options in
  let fs := map FlagInfo.flag (convertToFlagInfos o) in
  if existsb (String.eqb "help") (removed_aliases o) then ~ In "help" fs
  else exists pre, fs = (pre ++ ["help"])%list /\ ~ In "help" pre.
Proof.
  intros o fs. subst fs. rewrite flags_of_convertToFlagInfos.
  destruct (flagSet_shape o) as (del & Hdel & ->).
  rewrite filter_app. cbn [filter].
  destruct (existsb (String.eqb "help") (removed_aliases o)); cbn [negb].
  - rewrite app_nil_r, filter_In. intros [H _]. exact (Hdel H).
  - eexists. split; [reflexivity|]. rewrite filter_In. intros [H _].
    exact (Hdel H).
Qed.

(** ** The two revisions of [formatUsage] *)

Lemma js_get_In {A} (k : string) (v : A) (d : obj A) :
  js_get k d = Some v -> In (k, v) d.
Proof.
  induction d as [|[k' v'] d IH]; simpl; [discriminate|].
  destruct (String.eqb_spec k k') as [->|_]; intro H.
  - injection H as <-. left. reflexivity.
  - right. apply IH. exact H.
Qed.

Lemma existsb_keys {A} (k : string) (d : obj A) :
  existsb (String.eqb k) (keys d) =
  match js_get k d with Some _ => true | None => false end.
Proof.
  induction d as [|[k' v'] d IH]; simpl; [reflexivity|].
  destruct (String.eqb k k'); simpl; [reflexivity|exact IH].
Qed.

Lemma fold_left_map' {X Y B} (g : B -> Y -> B) (h : X -> Y) (l : list X) (b : B) :
  fold_left g (map h l) b = fold_left (fun b x => g b (h x)) l b.
Proof. revert b. induction l as [|x l IH]; intro b; simpl; [reflexivity|apply IH]. Qed.

Lemma flagArgumentStrings_get (o : options) (f : string) :
  js_get f (Earlier.flagArgumentStrings o) =
  if existsb (String.eqb f) (flagSet o) then argument_string o f else None.
Proof.
  unfold Earlier.flagArgumentStrings.
  rewrite (js_get_fold _ (fun x => x) (argument_string o)).
  - simpl. destruct (existsb _ _); [|reflexivity].
    destruct (argument_string o f); reflexivity.
  - intros acc x k.
    destruct (String.eqb_spec k x) as [->|Hne];
      destruct (argument_string o x) as [s|] eqn:E;
      try rewrite js_get_set; try rewrite String.eqb_refl; try rewrite E;
      try reflexivity;
      apply String.eqb_neq in Hne; rewrite Hne; reflexivity.
Qed.

Lemma earlier_flagDefaultStrings_get (o : options) (f : string) :
  js_get f (Earlier.flagDefaultStrings o) =
  match js_get f (defaults_of o) with
  | Some v => Some (Earlier.default_string v)
  | None => None
  end.
Proof.
  unfold Earlier.flagDefaultStrings.
  rewrite (js_get_fold _ (fun x => x)
    (fun k => Some (Earlier.default_string (js_get_value k (defaults_of o))))).
  - simpl. rewrite existsb_keys. unfold js_get_value.
    destruct (js_get f (defaults_of o)); reflexivity.
  - intros acc x k. rewrite js_get_set.
    destruct (String.eqb_spec k x) as [->|]; reflexivity.
Qed.

Lemma flagDefaultStrings_get (o : options) (f : string) :
  js_get f (flagDefaultStrings (convertToFlagInfos o)) =
  if existsb (String.eqb f) (flagSet o)
     && truthy_str (default_string (js_get_value f (defaults_of o)))
  then default_string (js_get_value f (defaults_of o)) else None.
Proof.
  unfold flagDefaultStrings, convertToFlagInfos. rewrite fold_left_map'.
  rewrite (js_get_fold _ (fun x => x)
    (fun k => if truthy_str (default_string (js_get_value k (defaults_of o)))
              then default_string (js_get_value k (defaults_of o)) else None)).
  - simpl. destruct (existsb _ (flagSet o)); simpl; [|reflexivity].
    destruct (truthy_str _); [|reflexivity].
    destruct (default_string _); reflexivity.
  - intros acc x k. simpl.
    destruct (String.eqb_spec k x) as [->|Hne];
      destruct (default_string (js_get_value x (defaults_of o))) as [s|] eqn:E;
      simpl; try (destruct (negb (String.eqb s "")) eqn:T);
      try rewrite js_get_set; try rewrite String.eqb_refl; try rewrite E;
      simpl; try rewrite T; try reflexivity;
      apply String.eqb_neq in Hne; rewrite Hne; reflexivity.
Qed.

(** Only the truthiness of the default text, and the text when truthy,
    matter to [description_string]. *)
Definition truthy_only (d : option string) : option string :=
  if truthy_str d then d else None.

Lemma description_string_truthy_only (desc d : option string) :
  description_string desc d = description_string desc (truthy_only d).
Proof.
  unfold truthy_only. destruct (truthy_str d) eqn:T; [reflexivity|].
  unfold description_string. rewrite T. reflexivity.
Qed.

Lemma default_string_defined (v : value) :
  v <> VUndefined -> default_string v = Some (Earlier.default_string v).
Proof. destruct v; intro H; try reflexivity. congruence. Qed.

Lemma defaults_of_addHelpFlagIfNeeded (o : options) :
  defaults_of (addHelpFlagIfNeeded o) = defaults_of o.
Proof.
  unfold addHelpFlagIfNeeded. destruct (help_declared o); reflexivity.
Qed.

(** ** C10: the two revisions agree except on [undefined] defaults *)

(** C10 (counterexample): [{default: {x: undefined}}] is rendered
    [Default: undefined] by the earlier revision and with no default text
    by the later one. *)
Lemma formatUsage_revisions_differ :
  Earlier.formatUsage undefined_default_options =
  "Options:" ++ nl ++ "  -x <arg>        Default: undefined" ++ nl ++
  "  -h, -?, --help  Display usage information" /\
  formatUsage undefined_default_options =
  "Options:" ++ nl ++ "  -x <arg>        " ++ nl ++
  "  -h, -?, --help  Display usage information".
Proof. split; vm_compute; reflexivity. Qed.

(** C10 (as amended): on every configuration whose default map holds no
    [undefined] value (explicit empty-string placeholders included) the
    two revisions return the same string. *)
Theorem formatUsage_revisions_agree (options : options) :
  Forall (fun kv => snd kv <> VUndefined) (defaults_of options) ->
  Earlier.formatUsage options = formatUsage options.
Proof.
  intro Hdef. unfold Earlier.formatUsage, formatUsage. cbv zeta.
  set (o := addHelpFlagIfNeeded options).
  assert (Hdef' : Forall (fun kv => snd kv <> VUndefined) (defaults_of o))
    by (subst o; rewrite defaults_of_addHelpFlagIfNeeded; exact Hdef).
  remember (flagDefaultStrings (convertToFlagInfos o)) as dstrs eqn:Hd.
  unfold convertToFlagInfos. rewrite map_map. f_equal.
  apply map_ext_in. intros f Hf. cbn [FlagInfo.flag FlagInfo.aliases
    FlagInfo.description FlagInfo.argumentName].
  f_equal.
  - unfold flag_string. cbn [FlagInfo.flag FlagInfo.aliases FlagInfo.argumentName].
    f_equal.
    rewrite flagArgumentStrings_get, flagArgumentNames_get,
      (existsb_eqb_In f _ Hf). simpl.
    destruct (truthy_str (argument_string o f)) eqn:T; rewrite ?T; reflexivity.
  - rewrite (description_string_truthy_only _ (js_get f dstrs)).
    rewrite (description_string_truthy_only _ (js_get f (Earlier.flagDefaultStrings o))).
    f_equal. subst dstrs.
    rewrite flagDefaultStrings_get, earlier_flagDefaultStrings_get,
      (existsb_eqb_In f _ Hf). simpl. unfold truthy_only, js_get_value.
    destruct (js_get f (defaults_of o)) as [v|] eqn:E.
    + assert (Hv : v <> VUndefined).
      { apply js_get_In in E. rewrite Forall_forall in Hdef'.
        exact (Hdef' (f, v) E). }
      rewrite (default_string_defined v Hv).
      destruct (truthy_str (Some (Earlier.default_string v))) eqn:T;
        cbv beta iota; rewrite ?T; reflexivity.
    + reflexivity.
Qed.

Lemma formatUsage_revisions_agree_witness :
  Forall (fun kv => snd kv <> VUndefined) (defaults_of example_options) /\
  Earlier.formatUsage example_options = formatUsage example_options.
Proof.
  split.
  - repeat constructor. discriminate.
  - apply formatUsage_revisions_agree. repeat constructor. discriminate.
Defined.

(** ** [processFlags] *)

Lemma string_append_assoc (a b c : string) : (a ++ b) ++ c = a ++ b ++ c.
Proof. induction a as [|x a IH]; simpl; congruence. Qed.

Lemma string_append_empty (a : string) : a ++ "" = a.
Proof. induction a as [|x a IH]; simpl; congruence. Qed.

Lemma formatUsage_set_unknown (o : options) (cb : callback) :
  formatUsage (set_unknown o cb) = formatUsage o.
Proof. apply formatUsage_ext. repeat split. Qed.

Lemma formatUsage_addHelpFlagIfNeeded (o : options) :
  formatUsage (addHelpFlagIfNeeded o) = formatUsage o.
Proof.
  unfold formatUsage at 1. rewrite addHelpFlagIfNeeded_idem. reflexivity.
Qed.

(** The object [processFlags] logs the usage of renders as the caller's. *)
Lemma formatUsage_processFlags_object (tokenize : tokenizer) (fuel : nat)
  (h : heap) (argv : list string) (l : nat) :
  l < length h ->
  let '(h3, lo, _) := processFlags_parse tokenize fuel h argv l in
  formatUsage (hget h3 lo) = formatUsage (hget h l).
Proof.
  intro Hl. destruct (help_declared (hget h l)) eqn:Hd.
  - rewrite (processFlags_parse_declared tokenize fuel h argv l Hl Hd).
    rewrite hget_hset_same by exact Hl. apply formatUsage_set_unknown.
  - rewrite (processFlags_parse_fresh tokenize fuel h argv l Hd). cbv zeta.
    rewrite hget_hset_same by (rewrite length_app; simpl; lia).
    rewrite formatUsage_set_unknown. apply formatUsage_addHelpFlagIfNeeded.
Qed.

(** The wrapper records the token it is given, whatever its form, before
    anything else. *)
Lemma call_unknown_wrapper_records (fuel : nat) (h : heap)
  (uf : list string) (l : nat) (arg : string) (uf' : list string) (r : value) :
  call_unknown fuel h uf (Wrapper l) arg = Some (uf', r) ->
  exists rest, uf' = (uf ++ arg :: rest)%list.
Proof.
  destruct fuel as [|fuel]; simpl; [discriminate|].
  assert (Hgen : forall k uf0 cb, call_unknown k h uf0 cb arg = Some (uf', r) ->
            exists rest, uf' = (uf0 ++ rest)%list).
  { induction k as [|n IH]; intros uf0 cb; simpl; [discriminate|].
    destruct cb as [f|l'].
    - intro H. injection H as <- _. exists []. rewrite app_nil_r. reflexivity.
    - destruct (unknown (hget h l')) as [cb'|].
      + intro H. destruct (IH _ _ H) as [rest ->]. eexists.
        rewrite <- app_assoc. reflexivity.
      + intro H. injection H as <- _. eexists. reflexivity. }
  destruct (unknown (hget h l)) as [cb|].
  - intro H. destruct (Hgen _ _ _ H) as [rest ->]. exists rest.
    rewrite <- app_assoc. reflexivity.
  - intro H. injection H as <- _. exists []. reflexivity.
Qed.

(** ** C6: the unknown-arguments report *)

(** C6 (counterexample): a token given twice is reported twice. *)
Lemma processFlags_reports_repeated_token :
  snd (processFlags StdFlags.parse 100 [empty_options] ["--bogus"; "--bogus"] 0)
  = Exited [("Unknown arguments: --bogus --bogus" ++ nl)%string;
            formatUsage empty_options] (-1).
Proof. vm_compute. reflexivity. Qed.

(** C6 (as amended): when the parse recorded tokens, [processFlags] logs
    ["Unknown arguments: "] and the recorded tokens joined by spaces in
    the order they were recorded, repetitions kept, then a line break (a
    blank line once printed), then the usage text, and exits with code
    [-1] instead of returning. *)
Theorem processFlags_unknown_report (tokenize : tokenizer) (fuel : nat)
  (h : heap) (argv : list string) (l : nat) (a : args) (uf : list string) :
  l < length h ->
  snd (processFlags_parse tokenize fuel h argv l) = Some (a, uf) ->
  uf <> [] ->
  snd (processFlags tokenize fuel h argv l) =
  Exited [("Unknown arguments: " ++ join " " uf ++ nl)%string;
          formatUsage (hget h l)] (-1) /\
  console_text [("Unknown arguments: " ++ join " " uf ++ nl)%string;
                formatUsage (hget h l)] =
  "Unknown arguments: " ++ join " " uf ++ nl ++ nl ++
  formatUsage (hget h l) ++ nl.
Proof.
  intros Hl Hr Hne. split.
  - pose proof (formatUsage_processFlags_object tokenize fuel h argv l Hl) as Hf.
    unfold processFlags.
    destruct (processFlags_parse tokenize fuel h argv l) as [[h3 lo] r].
    simpl in Hr. subst r. rewrite <- Hf.
    destruct uf as [|t uf]; [contradiction|].
    assert (Hu : negb (Nat.eqb (length (t :: uf)) 0) = true) by reflexivity.
    cbv zeta. rewrite Hu, orb_true_r. reflexivity.
  - unfold console_text. cbn [fold_right].
    rewrite string_append_empty, !string_append_assoc. reflexivity.
Qed.

Lemma processFlags_unknown_report_witness :
  snd (processFlags StdFlags.parse 100 [empty_options] ["--bogus"] 0) =
  Exited [("Unknown arguments: --bogus" ++ nl)%string;
          formatUsage empty_options] (-1).
Proof.
  apply (processFlags_unknown_report StdFlags.parse 100 [empty_options]
           ["--bogus"] 0 (mkArgs [("bogus", VBoolean true)] []) ["--bogus"]).
  - vm_compute. lia.
  - vm_compute. reflexivity.
  - discriminate.
Defined.

(** ** C9: bare positional tokens *)

(** [processFlags] returns the parse result exactly when nothing was
    recorded and [help] is falsy; there is no flag-prefix test of its own. *)
Lemma processFlags_returns_iff (tokenize : tokenizer) (fuel : nat)
  (h : heap) (argv : list string) (l : nat) (a : args) (uf : list string) :
  snd (processFlags_parse tokenize fuel h argv l) = Some (a, uf) ->
  (snd (processFlags tokenize fuel h argv l) = Returned a <->
   uf = [] /\ truthy (js_get_value "help" (named a)) = false).
Proof.
  intro Hr. unfold processFlags.
  destruct (processFlags_parse tokenize fuel h argv l) as [[h3 lo] r].
  simpl in Hr. subst r. cbv zeta.
  destruct (truthy (js_get_value "help" (named a))) eqn:Hh;
    destruct uf as [|t uf]; simpl; split;
    try discriminate; try (intros [H1 H2]; discriminate);
    try (intros [H1 _]; discriminate); intros _; auto.
Qed.

(** Without the wrapper, [parseFlags] keeps ["foo"] as a positional
    argument. *)
Lemma parseFlags_keeps_positional :
  snd (parseFlags StdFlags.parse 100 [empty_options] ["foo"] 0 []) =
  Some (mkArgs [] [VString "foo"], []).
Proof. vm_compute. reflexivity. Qed.

(** C9 (code defect): std/flags passes the bare word ["foo"] to the
    [unknown] callback, the wrapper records it, and [processFlags] with
    an empty configuration reports it and exits instead of returning
    [{_: ["foo"]}]. *)
Theorem processFlags_positional_reported_unknown :
  snd (processFlags StdFlags.parse 100 [empty_options] ["foo"] 0) =
  Exited [("Unknown arguments: foo" ++ nl)%string; formatUsage empty_options]
    (-1).
Proof. vm_compute. reflexivity. Qed.

(** * Further properties of the module *)

(** ** The flag set of [convertToFlagInfos] *)

Lemma existsb_eqb_false (f : string) (l : list string) :
  negb (existsb (String.eqb f) l) = true <-> ~ In f l.
Proof.
  split.
  - intros H Hin. rewrite (existsb_eqb_In f l Hin) in H. discriminate.
  - intro H. destruct (existsb (String.eqb f) l) eqn:E; [|reflexivity].
    apply existsb_exists in E. destruct E as (y & Hy & Heq).
    apply String.eqb_eq in Heq. subst y. contradiction.
Qed.

Lemma In_set_add (x y : string) (s : list string) :
  In y (set_add s x) <-> In y s \/ y = x.
Proof.
  unfold set_add. destruct (existsb (String.eqb x) s) eqn:E.
  - split; [tauto|]. intros [H| ->]; [exact H|].
    apply existsb_exists in E. destruct E as (z & Hz & Heq).
    apply String.eqb_eq in Heq. subst z. exact Hz.
  - rewrite in_app_iff. simpl. split.
    + intros [H|[H|[]]]; [left; exact H|right; symmetry; exact H].
    + intros [H|H]; [left; exact H|right; left; symmetry; exact H].
Qed.

Lemma In_fold_set_add (l s : list string) (y : string) :
  In y (fold_left set_add l s) <-> In y s \/ In y l.
Proof.
  revert s. induction l as [|x l IH]; intro s; simpl.
  - tauto.
  - rewrite IH, In_set_add. split.
    + intros [[H|H]|H]; [left; exact H|right; left; symmetry; exact H|
                         right; right; exact H].
    + intros [H|[H|H]]; [left; left; exact H|left; right; symmetry; exact H|
                         right; exact H].
Qed.

Lemma NoDup_set_add (s : list string) (x : string) :
  NoDup s -> NoDup (set_add s x).
Proof.
  intro Hs. unfold set_add. destruct (existsb (String.eqb x) s) eqn:E;
    [exact Hs|].
  apply (Permutation_NoDup (l := x :: s)).
  - apply (Permutation_app_comm [x] s).
  - constructor; [|exact Hs]. apply existsb_eqb_false. rewrite E. reflexivity.
Qed.

Lemma NoDup_fold_set_add (l s : list string) :
  NoDup s -> NoDup (fold_left set_add l s).
Proof.
  revert s. induction l as [|x l IH]; intros s Hs; simpl; [exact Hs|].
  apply IH, NoDup_set_add, Hs.
Qed.

(** [set_add] on names not yet in the set appends them in order. *)
Lemma fold_set_add_fresh (l s : list string) :
  NoDup (s ++ l) -> fold_left set_add l s = (s ++ l)%list.
Proof.
  revert s. induction l as [|x l IH]; intros s Hnd; simpl.
  - rewrite app_nil_r. reflexivity.
  - assert (Hx : set_add s x = (s ++ [x])%list).
    { unfold set_add. destruct (existsb (String.eqb x) s) eqn:E; [|reflexivity].
      apply existsb_exists in E. destruct E as (y & Hy & Heq).
      apply String.eqb_eq in Heq. subst y. exfalso.
      apply (NoDup_remove_2 s l x Hnd). apply in_or_app. left. exact Hy. }
    rewrite Hx, IH by (rewrite <- app_assoc; exact Hnd).
    rewrite <- app_assoc. reflexivity.
Qed.

Lemma fold_set_add_extends (l s : list string) :
  exists added, fold_left set_add l s = (s ++ added)%list.
Proof.
  revert s. induction l as [|x l IH]; intro s; simpl.
  - exists []. rewrite app_nil_r. reflexivity.
  - destruct (IH (set_add s x)) as [added ->]. unfold set_add.
    destruct (existsb (String.eqb x) s).
    + exists added. reflexivity.
    + exists (x :: added). rewrite <- app_assoc. reflexivity.
Qed.

Lemma flagSet_expand (o : options) :
  flagSet o =
  filter (fun y => negb (existsb (String.eqb y) (removed_aliases o)))
    (set_delete "help" (fold_left set_add (declared_names o) []) ++ ["help"])%list.
Proof.
  unfold flagSet. rewrite set_add_after_delete, fold_remove_aliases.
  reflexivity.
Qed.

(** X1: [convertToFlagInfos] gives at most one record per flag name. *)
Theorem convertToFlagInfos_flags_unique (o : options) :
  NoDup (map FlagInfo.flag (convertToFlagInfos o)).
Proof.
  rewrite flags_of_convertToFlagInfos, flagSet_expand. apply NoDup_filter.
  apply (Permutation_NoDup (l := "help" :: set_delete "help"
           (fold_left set_add (declared_names o) []))).
  - apply (Permutation_app_comm ["help"]).
  - constructor; [apply not_In_set_delete|].
    apply NoDup_filter, NoDup_fold_set_add. constructor.
Qed.

(** X2: a name has a [FlagInfo] record exactly when it is ["help"] or is
    named by the description, boolean, string, argument or default
    properties, and it is not listed as an alias of any flag. *)
Theorem convertToFlagInfos_flags_iff (o : options) (f : string) :
  In f (map FlagInfo.flag (convertToFlagInfos o)) <->
  (f = "help" \/ In f (declared_names o)) /\ ~ In f (removed_aliases o).
Proof.
  rewrite flags_of_convertToFlagInfos, flagSet_expand, filter_In,
    existsb_eqb_false, in_app_iff.
  unfold set_delete. rewrite filter_In, In_fold_set_add. cbv beta. cbn [In].
  destruct (String.eqb_spec "help" f) as [<-|Hne]; cbn [negb].
  - split; intros [_ H]; split; auto.
  - split.
    + intros [[[[[]|H] _]|[H|[]]] Hr]; [split; [right; exact H|exact Hr]|].
      congruence.
    + intros [[H|H] Hr]; [congruence|]. split; [|exact Hr].
      left. split; [right; exact H|reflexivity].
Qed.

(** X3: the flags named by the description map come first, in the
    order of its keys (["help"] and alias names left out). *)
Theorem convertToFlagInfos_description_order (o : options) :
  NoDup (keys (descriptions_of o)) ->
  exists rest,
    map FlagInfo.flag (convertToFlagInfos o) =
    (filter (fun y => negb (String.eqb "help" y) &&
                      negb (existsb (String.eqb y) (removed_aliases o)))
       (keys (descriptions_of o)) ++ rest)%list.
Proof.
  intro Hnd. rewrite flags_of_convertToFlagInfos, flagSet_expand.
  unfold declared_names. rewrite fold_left_app, (fold_set_add_fresh _ [])
    by exact Hnd.
  destruct (fold_set_add_extends (booleanFlags o ++ stringFlags o
    ++ keys (flagArguments_of o) ++ keys (defaults_of o))
    ([] ++ keys (descriptions_of o))) as [added ->].
  unfold set_delete. eexists.
  rewrite (filter_app (fun y => negb (existsb (String.eqb y) (removed_aliases o)))).
  rewrite (filter_app (fun y => negb (String.eqb "help" y))).
  rewrite (filter_app (fun y => negb (existsb (String.eqb y) (removed_aliases o)))).
  rewrite <- app_assoc, filter_filter_and. reflexivity.
Qed.

Lemma convertToFlagInfos_description_order_witness :
  NoDup (keys (descriptions_of (addHelpFlagIfNeeded example_options))) /\
  exists rest,
    map FlagInfo.flag (convertToFlagInfos (addHelpFlagIfNeeded example_options)) =
    (filter (fun y => negb (String.eqb "help" y) &&
       negb (existsb (String.eqb y)
               (removed_aliases (addHelpFlagIfNeeded example_options))))
       (keys (descriptions_of (addHelpFlagIfNeeded example_options))) ++ rest)%list.
Proof.
  assert (H : NoDup (keys (descriptions_of (addHelpFlagIfNeeded example_options)))).
  { vm_compute. constructor; [intros [H|[]]; discriminate|].
    constructor; [intros []|constructor]. }
  split; [exact H|]. apply convertToFlagInfos_description_order. exact H.
Defined.

(** ** Record fields *)

Lemma flagToAliases_get (o : options) (f : string) :
  js_get f (flagToAliases o) =
  match alias o with
  | Some a => option_map alias_list (js_get f a)
  | None => None
  end.
Proof.
  unfold flagToAliases. destruct (alias o) as [a|]; [|reflexivity].
  rewrite (js_get_fold _ (fun x => x) (fun k => option_map alias_list (js_get k a))).
  - simpl. rewrite existsb_keys. destruct (js_get f a); reflexivity.
  - intros acc x k. cbv beta.
    destruct (String.eqb_spec k x) as [->|Hne];
      destruct (js_get x a) as [v|] eqn:E; try rewrite js_get_set;
      try rewrite String.eqb_refl; try rewrite E; try reflexivity;
      apply String.eqb_neq in Hne; rewrite Hne; reflexivity.
Qed.

(** X4: a record's aliases are the flag's entry in the alias map made an
    array: a single string [s] becomes [[s]], an array is kept; a flag
    with no entry has no aliases. *)
Theorem flagInfo_aliases (o : options) (i : FlagInfo.t) :
  In i (convertToFlagInfos o) ->
  FlagInfo.aliases i =
  match alias o with
  | Some a =>
      match js_get (FlagInfo.flag i) a with
      | Some (AliasOne s) => Some [s]
      | Some (AliasMany l) => Some l
      | None => None
      end
  | None => None
  end.
Proof.
  intro Hi. destruct (In_convertToFlagInfos o i Hi) as [_ Heq].
  apply (f_equal FlagInfo.aliases) in Heq. cbn [FlagInfo.aliases] in Heq.
  rewrite Heq, flagToAliases_get. destruct (alias o) as [a|]; [|reflexivity].
  destruct (js_get (FlagInfo.flag i) a) as [[s|l]|]; reflexivity.
Qed.

Lemma flagInfo_aliases_witness :
  let o := addHelpFlagIfNeeded example_options in
  let i := FlagInfo.mk "help" (Some ["h"; "?"]) None
             (Some "Display usage information") None VUndefined in
  In i (convertToFlagInfos o) /\
  FlagInfo.aliases i =
  match alias o with
  | Some a =>
      match js_get (FlagInfo.flag i) a with
      | Some (AliasOne s) => Some [s]
      | Some (AliasMany l) => Some l
      | None => None
      end
  | None => None
  end.
Proof.
  intros o i.
  assert (H : In i (convertToFlagInfos o))
    by (vm_compute; right; left; reflexivity).
  split; [exact H|]. exact (flagInfo_aliases o i H).
Defined.

(** X5: a record's argument name is the flag's entry in the argument
    map when that entry is a non-empty string; an empty entry gives no
    name at all (the type is not consulted); with no entry, a non-empty
    type gives ["str"] for ["string"], ["num"] for ["number"], none for
    ["boolean"] and ["arg"] for any other type.  It is never [""]. *)
Theorem flagInfo_argumentName (o : options) (i : FlagInfo.t) :
  In i (convertToFlagInfos o) ->
  FlagInfo.argumentName i =
  match js_get (FlagInfo.flag i) (flagArguments_of o) with
  | Some s => if String.eqb s "" then None else Some s
  | None =>
      match FlagInfo.type i with
      | Some ty =>
          if String.eqb ty "" then None
          else if String.eqb ty "string" then Some "str"
          else if String.eqb ty "number" then Some "num"
          else if String.eqb ty "boolean" then None
          else Some "arg"
      | None => None
      end
  end /\
  FlagInfo.argumentName i <> Some "".
Proof.
  intro Hi. destruct (In_convertToFlagInfos o i Hi) as [Hf Heq].
  assert (Hn : FlagInfo.argumentName i =
               js_get (FlagInfo.flag i) (flagArgumentNames o))
    by (rewrite Heq at 1; reflexivity).
  assert (Ht : FlagInfo.type i = js_get (FlagInfo.flag i) (flagArgumentTypes o))
    by (rewrite Heq at 1; reflexivity).
  assert (H1 : FlagInfo.argumentName i =
    match js_get (FlagInfo.flag i) (flagArguments_of o) with
    | Some s => if String.eqb s "" then None else Some s
    | None =>
        match FlagInfo.type i with
        | Some ty =>
            if String.eqb ty "" then None
            else if String.eqb ty "string" then Some "str"
            else if String.eqb ty "number" then Some "num"
            else if String.eqb ty "boolean" then None
            else Some "arg"
        | None => None
        end
    end).
  { rewrite Hn, Ht, flagArgumentNames_get, (existsb_eqb_In _ _ Hf). simpl.
    unfold argument_string.
    destruct (js_get (FlagInfo.flag i) (flagArguments_of o)) as [s|].
    - simpl. destruct (String.eqb s ""); reflexivity.
    - destruct (js_get (FlagInfo.flag i) (flagArgumentTypes o)) as [ty|];
        simpl; [|reflexivity].
      destruct (String.eqb ty "") eqn:E0; simpl; [reflexivity|].
      unfold argument_of_type.
      destruct (String.eqb ty "string"); [reflexivity|].
      destruct (String.eqb ty "number"); [reflexivity|].
      destruct (String.eqb ty "boolean"); reflexivity. }
  split; [exact H1|]. rewrite H1.
  destruct (js_get (FlagInfo.flag i) (flagArguments_of o)) as [s|].
  - destruct (String.eqb s "") eqn:E; [discriminate|].
    intro H. injection H as H. subst s. discriminate.
  - destruct (FlagInfo.type i) as [ty|]; [|discriminate].
    destruct (String.eqb ty ""); [discriminate|].
    destruct (String.eqb ty "string"); [discriminate|].
    destruct (String.eqb ty "number"); [discriminate|].
    destruct (String.eqb ty "boolean"); discriminate.
Qed.

Lemma flagInfo_argumentName_witness :
  let o := addHelpFlagIfNeeded example_options in
  let i := FlagInfo.mk "output" None (Some "string") (Some "Output directory")
             (Some "dir") (VString "out") in
  In i (convertToFlagInfos o) /\
  (FlagInfo.argumentName i =
   match js_get (FlagInfo.flag i) (flagArguments_of o) with
   | Some s => if String.eqb s "" then None else Some s
   | None =>
       match FlagInfo.type i with
       | Some ty =>
           if String.eqb ty "" then None
           else if String.eqb ty "string" then Some "str"
           else if String.eqb ty "number" then Some "num"
           else if String.eqb ty "boolean" then None
           else Some "arg"
       | None => None
       end
   end /\
   FlagInfo.argumentName i <> Some "").
Proof.
  intros o i.
  assert (H : In i (convertToFlagInfos o)) by (vm_compute; left; reflexivity).
  split; [exact H|]. exact (flagInfo_argumentName o i H).
Defined.

(** ** Rendering *)

Lemma string_length_append (a b : string) :
  String.length (a ++ b) = String.length a + String.length b.
Proof. induction a as [|c a IH]; simpl; congruence. Qed.

Lemma length_spaces (n : nat) : String.length (spaces n) = n.
Proof. induction n as [|n IH]; simpl; congruence. Qed.

Lemma fold_max_spec (l : list (string * string)) (m : nat) :
  let w := fold_left (fun m fs => Nat.max m (String.length (fst fs))) l m in
  m <= w /\ (forall fs, In fs l -> String.length (fst fs) <= w) /\
  (w = m \/ exists fs, In fs l /\ String.length (fst fs) = w).
Proof.
  revert m. induction l as [|fs l IH]; intro m; simpl.
  - split; [lia|]. split; [intros _ []|left; reflexivity].
  - destruct (IH (Nat.max m (String.length (fst fs)))) as (H1 & H2 & H3).
    set (w := fold_left _ l (Nat.max m (String.length (fst fs)))) in *.
    split; [lia|]. split.
    + intros fs' [<-|Hin]; [lia|exact (H2 fs' Hin)].
    + destruct H3 as [H3|(fs' & Hin & Heq)].
      * destruct (Nat.max_spec m (String.length (fst fs))) as [[_ Hm]|[_ Hm]];
          rewrite Hm in H3; [right; exists fs; split; [left; reflexivity|lia]|
                             left; exact H3].
      * right. exists fs'. split; [right; exact Hin|exact Heq].
Qed.

(** X6: the usage text is the [Options:] header and one line per entry,
    joined by line breaks; each line is two spaces, the flag string
    padded with spaces to the width [w] of the longest flag string, two
    spaces and the description, so every description starts at column
    [w + 4]. *)
Theorem render_aligned (flagStrings : list (string * string)) :
  exists w,
    (forall fs, In fs flagStrings -> String.length (fst fs) <= w) /\
    (flagStrings <> [] ->
     exists fs, In fs flagStrings /\ String.length (fst fs) = w) /\
    render flagStrings =
    "Options:" ++ nl ++
    join nl (map (fun fs =>
      "  " ++ fst fs ++ spaces (w - String.length (fst fs)) ++ "  " ++ snd fs)
      flagStrings) /\
    (forall fs, In fs flagStrings ->
     String.length ("  " ++ fst fs ++ spaces (w - String.length (fst fs)) ++ "  ")
     = w + 4).
Proof.
  destruct (fold_max_spec flagStrings 0) as (_ & Hle & Hex).
  eexists. split; [exact Hle|]. split; [|split].
  - intro Hne. destruct Hex as [H0|H]; [|exact H].
    destruct flagStrings as [|fs l]; [contradiction|].
    exists fs. split; [left; reflexivity|].
    specialize (Hle fs (or_introl eq_refl)). lia.
  - reflexivity.
  - intros fs Hin. specialize (Hle fs Hin).
    rewrite !string_length_append, length_spaces. simpl. lia.
Qed.

(** ** The sort of names by length *)

Definition by_length (a b : string) : Prop := String.length a <= String.length b.

Lemma insert_by_length_perm (x : string) (l : list string) :
  Permutation (insert_by_length x l) (x :: l).
Proof.
  induction l as [|y l IH]; simpl; [reflexivity|].
  destruct (Nat.leb (String.length x) (String.length y)); [reflexivity|].
  rewrite IH. apply perm_swap.
Qed.

Lemma insert_by_length_hd (z x : string) (l : list string) :
  HdRel by_length z l -> by_length z x -> HdRel by_length z (insert_by_length x l).
Proof.
  intros Hl Hx. destruct l as [|y l]; simpl; [constructor; exact Hx|].
  destruct (Nat.leb (String.length x) (String.length y)); constructor;
    [exact Hx|inversion Hl; assumption].
Qed.

Lemma insert_by_length_sorted (x : string) (l : list string) :
  Sorted by_length l -> Sorted by_length (insert_by_length x l).
Proof.
  induction l as [|y l IH]; intro Hs; simpl; [constructor; constructor|].
  destruct (Nat.leb (String.length x) (String.length y)) eqn:E.
  - constructor; [exact Hs|]. constructor. apply Nat.leb_le. exact E.
  - apply Sorted_inv in Hs. destruct Hs as [Hs Hd]. constructor; [apply IH, Hs|].
    apply insert_by_length_hd; [exact Hd|]. apply Nat.leb_gt in E.
    unfold by_length. lia.
Qed.

Lemma insert_by_length_filter (n : nat) (x : string) (l : list string) :
  filter (fun s => Nat.eqb (String.length s) n) (insert_by_length x l) =
  filter (fun s => Nat.eqb (String.length s) n) (x :: l).
Proof.
  induction l as [|y l IH]; simpl; [reflexivity|].
  destruct (Nat.leb (String.length x) (String.length y)) eqn:E; [reflexivity|].
  simpl. rewrite IH. simpl. apply Nat.leb_gt in E.
  destruct (Nat.eqb_spec (String.length x) n);
    destruct (Nat.eqb_spec (String.length y) n); try lia; reflexivity.
Qed.

(** X7: the sort in [flagString] ([.sort((a, b) => a.length - b.length)])
    returns a permutation of the names, ordered by length, and names of
    the same length keep their order (the sort is stable). *)
Theorem sort_by_length_spec (l : list string) :
  Permutation (sort_by_length l) l /\
  Sorted by_length (sort_by_length l) /\
  forall n, filter (fun s => Nat.eqb (String.length s) n) (sort_by_length l) =
            filter (fun s => Nat.eqb (String.length s) n) l.
Proof.
  induction l as [|x l (IHp & IHs & IHf)]; simpl.
  - split; [reflexivity|]. split; [constructor|reflexivity].
  - split; [|split].
    + rewrite insert_by_length_perm, IHp. reflexivity.
    + apply insert_by_length_sorted, IHs.
    + intro n. rewrite insert_by_length_filter. simpl. rewrite IHf.
      reflexivity.
Qed.

(** ** [formatUsage] line by line *)

(** X8: [formatUsage] renders one line per [FlagInfo] record of the
    augmented configuration, in order: the flag string, and the
    description column built from the record's own description and the
    text the default-value [switch] gives for the record's own default. *)
Theorem formatUsage_lines (options : options) :
  formatUsage options =
  render (map (fun info =>
    (flag_string info,
     description_string (FlagInfo.description info)
       (default_string (FlagInfo.default info))))
    (convertToFlagInfos (addHelpFlagIfNeeded options))).
Proof.
  unfold formatUsage. cbv zeta. f_equal. apply map_ext_in.
  intros i Hi. f_equal.
  rewrite (description_string_truthy_only _ (js_get _ _)).
  rewrite (description_string_truthy_only _ (default_string _)). f_equal.
  destruct (In_convertToFlagInfos _ i Hi) as [Hf Heq].
  apply (f_equal FlagInfo.default) in Heq. cbn [FlagInfo.default] in Heq.
  rewrite flagDefaultStrings_get, (existsb_eqb_In _ _ Hf), Heq. simpl.
  unfold truthy_only.
  destruct (truthy_str (default_string _)) eqn:T; rewrite ?T; reflexivity.
Qed.

(** X9: when the caller has no truthy help description and ["help"] is
    not listed as an alias, the last [FlagInfo] record is the injected
    help flag, with aliases [["h", "?"]] and description ["Display usage
    information"]. *)
Theorem help_flagInfo_injected (options : options) :
  help_declared options = false ->
  ~ In "help" (removed_aliases (addHelpFlagIfNeeded options)) ->
  exists pre info,
    convertToFlagInfos (addHelpFlagIfNeeded options) = (pre ++ [info])%list /\
    FlagInfo.flag info = "help" /\
    FlagInfo.aliases info = Some ["h"; "?"] /\
    FlagInfo.description info = Some "Display usage information".
Proof.
  intros Hd Hr. set (o := addHelpFlagIfNeeded options).
  unfold convertToFlagInfos. rewrite flagSet_expand, filter_app. cbn [filter].
  assert (Hn : negb (existsb (String.eqb "help") (removed_aliases o)) = true)
    by (apply existsb_eqb_false; exact Hr).
  rewrite Hn, map_app. eexists. eexists. split; [reflexivity|].
  cbn [map FlagInfo.flag FlagInfo.aliases FlagInfo.description].
  split; [reflexivity|]. split.
  - rewrite flagToAliases_get. subst o. unfold addHelpFlagIfNeeded. rewrite Hd.
    cbn [alias]. rewrite js_get_set. reflexivity.
  - subst o. unfold descriptions_of, addHelpFlagIfNeeded. rewrite Hd.
    cbn [description]. rewrite js_get_set. reflexivity.
Qed.

Lemma help_flagInfo_injected_witness :
  help_declared example_options = false /\
  ~ In "help" (removed_aliases (addHelpFlagIfNeeded example_options)) /\
  exists pre info,
    convertToFlagInfos (addHelpFlagIfNeeded example_options) =
      (pre ++ [info])%list /\
    FlagInfo.flag info = "help" /\
    FlagInfo.aliases info = Some ["h"; "?"] /\
    FlagInfo.description info = Some "Display usage information".
Proof.
  assert (Hr : ~ In "help" (removed_aliases (addHelpFlagIfNeeded example_options))).
  { vm_compute. intros [H|[H|[]]]; discriminate. }
  split; [reflexivity|]. split; [exact Hr|].
  apply help_flagInfo_injected; [reflexivity|exact Hr].
Defined.

(** ** [parseFlags], [processFlags] and [processArgs] *)

(** X11: when the parse recorded no token and [help] is truthy in its
    result, [processFlags] logs the caller's usage text alone and exits
    with code [-1]. *)
Theorem processFlags_help_exit (tokenize : tokenizer) (fuel : nat) (h : heap)
  (argv : list string) (l : nat) (a : args) :
  l < length h ->
  snd (processFlags_parse tokenize fuel h argv l) = Some (a, []) ->
  truthy (js_get_value "help" (named a)) = true ->
  snd (processFlags tokenize fuel h argv l) =
  Exited [formatUsage (hget h l)] (-1).
Proof.
  intros Hl Hr Hh.
  pose proof (formatUsage_processFlags_object tokenize fuel h argv l Hl) as Hf.
  unfold processFlags.
  destruct (processFlags_parse tokenize fuel h argv l) as [[h3 lo] r].
  simpl in Hr. subst r. rewrite <- Hf. cbv zeta. rewrite Hh. reflexivity.
Qed.

Lemma processFlags_help_exit_witness :
  snd (processFlags StdFlags.parse 100 [empty_options] ["-h"] 0) =
  Exited [formatUsage empty_options] (-1).
Proof.
  apply (processFlags_help_exit StdFlags.parse 100 [empty_options] ["-h"] 0
    (mkArgs [("h", VBoolean true); ("help", VBoolean true); ("?", VBoolean true)] [])).
  - vm_compute. lia.
  - vm_compute. reflexivity.
  - reflexivity.
Defined.

(** X13: when the caller has no truthy help description, [processFlags]
    installs the wrapper on the copy, not on the caller's object, and the
    wrapper records each token and then forwards it to the caller's own
    [unknown] callback, whose result it returns ([undefined] when the
    caller has none). *)
Theorem processFlags_wrapper_forwards (tokenize : tokenizer) (fuel : nat)
  (h : heap) (argv : list string) (l : nat) :
  l < length h -> help_declared (hget h l) = false ->
  let '(h3, lo, _) := processFlags_parse tokenize fuel h argv l in
  unknown (hget h3 lo) = Some (Wrapper l) /\
  hget h3 l = hget h l /\
  forall fuel' uf arg,
    call_unknown (S (S fuel')) h3 uf (Wrapper l) arg =
    match unknown (hget h l) with
    | None => Some ((uf ++ [arg])%list, VUndefined)
    | Some (UserFn f) => Some ((uf ++ [arg])%list, f arg)
    | Some (Wrapper l') =>
        call_unknown (S fuel') h3 (uf ++ [arg])%list (Wrapper l') arg
    end.
Proof.
  intros Hl Hd. rewrite (processFlags_parse_fresh tokenize fuel h argv l Hd).
  cbv zeta.
  assert (Hc : hget (hset (h ++ [addHelpFlagIfNeeded (hget h l)])%list (length h)
             (set_unknown (addHelpFlagIfNeeded (hget h l)) (Wrapper l))) l
             = hget h l).
  { rewrite hget_hset_other by lia. apply hget_app_lt. exact Hl. }
  split; [|split; [exact Hc|]].
  - rewrite hget_hset_same by (rewrite length_app; simpl; lia). reflexivity.
  - intros fuel' uf arg. cbn [call_unknown]. rewrite Hc.
    destruct (unknown (hget h l)) as [[f|l']|]; reflexivity.
Qed.

Lemma processFlags_wrapper_forwards_witness :
  let '(h3, lo, _) :=
    processFlags_parse StdFlags.parse 100 [rejecting_options] ["--bogus"] 0 in
  unknown (hget h3 lo) = Some (Wrapper 0) /\
  hget h3 0 = hget [rejecting_options] 0 /\
  forall fuel' uf arg,
    call_unknown (S (S fuel')) h3 uf (Wrapper 0) arg =
    match unknown (hget [rejecting_options] 0) with
    | None => Some ((uf ++ [arg])%list, VUndefined)
    | Some (UserFn f) => Some ((uf ++ [arg])%list, f arg)
    | Some (Wrapper l') =>
        call_unknown (S fuel') h3 (uf ++ [arg])%list (Wrapper l') arg
    end.
Proof.
  apply processFlags_wrapper_forwards; [simpl; lia|reflexivity].
Defined.

Lemma call_unknown_self (fuel : nat) (h : heap) (l : nat) (uf : list string)
  (arg : string) :
  unknown (hget h l) = Some (Wrapper l) ->
  call_unknown fuel h uf (Wrapper l) arg = None.
Proof.
  intro Hs. revert uf. induction fuel as [|fuel IH]; intro uf; simpl;
    [reflexivity|].
  rewrite Hs. apply IH.
Qed.

(** X14: when the caller's help description is truthy and the tokenizer
    calls the [unknown] callback, [processFlags] fails with a stack
    overflow whatever the call-stack depth: the wrapper, installed on the
    caller's own object, forwards to itself. *)
Theorem processFlags_declared_help_overflow (tokenize : tokenizer)
  (fuel : nat) (h : heap) (argv : list string) (l : nat) :
  l < length h -> help_declared (hget h l) = true ->
  calls_unknown (tokenize argv (set_unknown (hget h l) (Wrapper l))) = true ->
  snd (processFlags tokenize fuel h argv l) = Threw "RangeError".
Proof.
  intros Hl Hd Hc. unfold processFlags.
  rewrite (processFlags_parse_declared tokenize fuel h argv l Hl Hd).
  destruct (tokenize argv (set_unknown (hget h l) (Wrapper l))) as [a|arg k];
    [discriminate|].
  cbn [run_parse]. rewrite call_unknown_self; [reflexivity|].
  rewrite hget_hset_same by exact Hl. reflexivity.
Qed.

Lemma processFlags_declared_help_overflow_witness :
  snd (processFlags StdFlags.parse 1000 [help_declared_options] ["-x"] 0) =
  Threw "RangeError".
Proof.
  apply processFlags_declared_help_overflow; [simpl; lia|reflexivity|].
  vm_compute. reflexivity.
Defined.

(** The earlier revision's usage text depends on the same six properties. *)
Lemma earlier_formatUsage_ext (o o' : options) :
  same_fields o o' -> Earlier.formatUsage o = Earlier.formatUsage o'.
Proof.
  intro H. destruct (addHelpFlagIfNeeded_ext o o' H)
    as (Ha & Hd & Hg & Hb & Hs & Hf).
  unfold Earlier.formatUsage, Earlier.flagArgumentStrings,
    Earlier.flagDefaultStrings, argument_string.
  unfold flagSet, flagToAliases, flagArgumentTypes, defaults_of,
    descriptions_of, flagArguments_of, booleanFlags, stringFlags.
  rewrite Ha, Hd, Hg, Hb, Hs, Hf. reflexivity.
Qed.

Lemma earlier_formatUsage_object (tokenize : tokenizer) (fuel : nat)
  (h : heap) (argv : list string) (l : nat) :
  l < length h ->
  let '(h3, lo, _) := processFlags_parse tokenize fuel h argv l in
  Earlier.formatUsage (hget h3 lo) = Earlier.formatUsage (hget h l).
Proof.
  intro Hl.
  assert (Hu : forall o cb, Earlier.formatUsage (set_unknown o cb) =
                            Earlier.formatUsage o)
    by (intros; apply earlier_formatUsage_ext; repeat split).
  destruct (help_declared (hget h l)) eqn:Hd.
  - rewrite (processFlags_parse_declared tokenize fuel h argv l Hl Hd).
    rewrite hget_hset_same by exact Hl. apply Hu.
  - rewrite (processFlags_parse_fresh tokenize fuel h argv l Hd). cbv zeta.
    rewrite hget_hset_same by (rewrite length_app; simpl; lia).
    rewrite Hu. unfold Earlier.formatUsage at 1.
    rewrite addHelpFlagIfNeeded_idem. reflexivity.
Qed.

(** X15: the earlier revision's [processArgs] behaves as [processFlags]:
    the same heap afterwards, a return or a stack overflow in the same
    cases, and on exit the same code and unknown-arguments line; only
    the usage text logged last is the earlier [formatUsage]'s. *)
Theorem processArgs_processFlags (tokenize : tokenizer) (fuel : nat)
  (h : heap) (argv : list string) (l : nat) :
  l < length h ->
  Earlier.processArgs tokenize fuel h argv l =
  match processFlags tokenize fuel h argv l with
  | (h', Exited logged code) =>
      (h', Exited (removelast logged ++ [Earlier.formatUsage (hget h l)])%list code)
  | r => r
  end.
Proof.
  intro Hl. pose proof (earlier_formatUsage_object tokenize fuel h argv l Hl) as Ho.
  assert (He : Earlier.processArgs tokenize fuel h argv l =
    let '(h3, lo, r) := processFlags_parse tokenize fuel h argv l in
    match r with
    | None => (h3, Threw "RangeError")
    | Some (parsedArgs, unknownFlags) =>
        let hasUnknownFlags := negb (Nat.eqb (length unknownFlags) 0) in
        if truthy (js_get_value "help" (named parsedArgs)) || hasUnknownFlags
        then
          (h3, Exited
                 ((if hasUnknownFlags
                   then [("Unknown arguments: " ++ join " " unknownFlags ++ nl)%string]
                   else [])
                  ++ Earlier.logUsage (hget h3 lo))%list (-1))
        else (h3, Returned parsedArgs)
    end).
  { unfold Earlier.processArgs, processFlags_parse.
    destruct (addHelpFlagIfNeeded_at h l) as [h1 lo].
    unfold Earlier.parseArgs, parseFlags.
    destruct (addHelpFlagIfNeeded_at _ lo). reflexivity. }
  rewrite He. unfold processFlags.
  destruct (processFlags_parse tokenize fuel h argv l) as [[h3 lo] [[a uf]|]];
    [|reflexivity].
  cbv zeta. unfold Earlier.logUsage. rewrite Ho.
  destruct (_ || _); [|reflexivity].
  rewrite removelast_last. reflexivity.
Qed.

Lemma processArgs_processFlags_witness :
  Earlier.processArgs StdFlags.parse 100 [empty_options] ["--bogus"] 0 =
  match processFlags StdFlags.parse 100 [empty_options] ["--bogus"] 0 with
  | (h', Exited logged code) =>
      (h', Exited (removelast logged ++ [Earlier.formatUsage empty_options])%list
             code)
  | r => r
  end.
Proof.
  apply (processArgs_processFlags StdFlags.parse 100 [empty_options] ["--bogus"] 0).
  simpl. lia.
Defined.
